(** * Amora-Prime: slider state machine, form validators and storage helpers

    A shallow embedding of the parts of the site's JavaScript that carry a
    contract: [js/slider.js] (class [Slider]), [js/utils.js]
    ([Utils.isValidEmail], [Utils.isValidPhone], [Utils.getStorage],
    [Utils.setStorage]) and the contact form handler
    ([ContactForm.validateField]). *)

From Stdlib Require Import ZArith NArith List Bool String Ascii Lia
  Permutation.
From ExtLib Require Import Structures.Monad Structures.MonadExc
  Data.Monads.StateMonad Data.Monads.EitherMonad.
Import ListNotations.
Import MonadNotation.
Local Open Scope monad_scope.

(* ===================================================================== *)
(** ** JavaScript strings *)
(* ===================================================================== *)

Module JsString.

(** A JavaScript string is a sequence of UTF-16 code units. *)
Definition code_unit := N.
Definition t := list code_unit.

(** String literals of the source, written as Rocq strings. *)
Fixpoint of_string (s : string) : t :=
  match s with
  | EmptyString => []
  | String a rest => N_of_ascii a :: of_string rest
  end.

Definition of_ascii (a : ascii) : code_unit := N_of_ascii a.

(** [\d] : the ASCII digits. *)
Definition is_digit (c : code_unit) : bool :=
  ((48 <=? c) && (c <=? 57))%N.

(** [\s], and the characters removed by [String.prototype.trim]:
    ECMAScript WhiteSpace and LineTerminator. *)
Definition is_space (c : code_unit) : bool :=
  ((c =? 9) || (c =? 10) || (c =? 11) || (c =? 12) || (c =? 13)
   || (c =? 32) || (c =? 160) || (c =? 5760)
   || ((8192 <=? c) && (c <=? 8202))
   || (c =? 8232) || (c =? 8233) || (c =? 8239) || (c =? 8287)
   || (c =? 12288) || (c =? 65279))%N.

Fixpoint trimStart (s : t) : t :=
  match s with
  | [] => []
  | c :: rest => if is_space c then trimStart rest else s
  end.

Definition trimEnd (s : t) : t := rev (trimStart (rev s)).

(** [s.trim()] *)
Definition trim (s : t) : t := trimEnd (trimStart s).

(** Truthiness of a string value: only the empty string is falsy. *)
Definition truthy (s : t) : bool :=
  match s with [] => false | _ :: _ => true end.

(** [a === b] on strings. *)
Fixpoint eqb (a b : t) : bool :=
  match a, b with
  | [], [] => true
  | x :: a', y :: b' => N.eqb x y && eqb a' b'
  | _, _ => false
  end.

(** How many digits a string contains. *)
Definition digitCount (s : t) : nat := List.length (filter is_digit s).

End JsString.

Definition jsstring : Type := JsString.t.
Definition js (s : string) : jsstring := JsString.of_string s.

(* ===================================================================== *)
(** ** Regular expressions *)
(* ===================================================================== *)

Module Regex.

(** What can stand inside a character class or alone in a pattern. *)
Inductive atom : Type :=
| AChar (c : JsString.code_unit)   (* a literal or escaped character *)
| ADigit                           (* \d *)
| ANonDigit                        (* \D *)
| ASpace.                          (* \s *)

Definition atom_matches (a : atom) (c : JsString.code_unit) : bool :=
  match a with
  | AChar c' => N.eqb c c'
  | ADigit => JsString.is_digit c
  | ANonDigit => negb (JsString.is_digit c)
  | ASpace => JsString.is_space c
  end.

(** [Set false l] is [[l]], [Set true l] is [[^l]]. [Plus r] is [r+].
    [Fail], [Eps], [Alt] and [Star] do not occur in the patterns of the
    source; derivatives need them. *)
Inductive regex : Type :=
| Fail
| Eps
| Atom (a : atom)
| Set_ (negated : bool) (members : list atom)
| Seq (r1 r2 : regex)
| Alt (r1 r2 : regex)
| Star (r : regex)
| Plus (r : regex).

Definition set_matches (negated : bool) (members : list atom)
           (c : JsString.code_unit) : bool :=
  xorb negated (existsb (fun a => atom_matches a c) members).

Fixpoint nullable (r : regex) : bool :=
  match r with
  | Fail => false
  | Eps => true
  | Atom _ => false
  | Set_ _ _ => false
  | Seq r1 r2 => nullable r1 && nullable r2
  | Alt r1 r2 => nullable r1 || nullable r2
  | Star _ => true
  | Plus r1 => nullable r1
  end.

Fixpoint deriv (c : JsString.code_unit) (r : regex) : regex :=
  match r with
  | Fail => Fail
  | Eps => Fail
  | Atom a => if atom_matches a c then Eps else Fail
  | Set_ n l => if set_matches n l c then Eps else Fail
  | Seq r1 r2 =>
      if nullable r1
      then Alt (Seq (deriv c r1) r2) (deriv c r2)
      else Seq (deriv c r1) r2
  | Alt r1 r2 => Alt (deriv c r1) (deriv c r2)
  | Star r1 => Seq (deriv c r1) (Star r1)
  | Plus r1 => Seq (deriv c r1) (Star r1)
  end.

(** [/^r$/.test(s)]: without the [m] flag the anchors pin the match to
    the whole input, so [test] decides membership of [s] in the language
    of [r]. *)
Fixpoint test (r : regex) (s : jsstring) : bool :=
  match s with
  | [] => nullable r
  | c :: rest => test (deriv c r) rest
  end.

(** [s.replace(/a/g, '')] for a pattern that is a single atom: every code
    unit the atom matches is removed. *)
Definition remove_all (a : atom) (s : jsstring) : jsstring :=
  filter (fun c => negb (atom_matches a c)) s.

(** The language of a pattern, declaratively. *)
Inductive Matches : regex -> jsstring -> Prop :=
| MEps : Matches Eps []
| MAtom a c : atom_matches a c = true -> Matches (Atom a) [c]
| MSet n l c : set_matches n l c = true -> Matches (Set_ n l) [c]
| MSeq r1 r2 s1 s2 :
    Matches r1 s1 -> Matches r2 s2 -> Matches (Seq r1 r2) (s1 ++ s2)
| MAltL r1 r2 s : Matches r1 s -> Matches (Alt r1 r2) s
| MAltR r1 r2 s : Matches r2 s -> Matches (Alt r1 r2) s
| MStarNil r : Matches (Star r) []
| MStarApp r s1 s2 :
    Matches r s1 -> Matches (Star r) s2 -> Matches (Star r) (s1 ++ s2)
| MPlus r s1 s2 :
    Matches r s1 -> Matches (Star r) s2 -> Matches (Plus r) (s1 ++ s2).

End Regex.

(* ===================================================================== *)
(** ** js/utils.js : validators *)
(* ===================================================================== *)

Module Utils.
Import Regex.

(** [[^\s@]] *)
Definition not_space_at : regex :=
  Set_ true [ASpace; AChar (JsString.of_ascii "@")].

(** [/^[^\s@]+@[^\s@]+\.[^\s@]+$/] *)
Definition email_regex : regex :=
  Seq (Plus not_space_at)
    (Seq (Atom (AChar (JsString.of_ascii "@")))
       (Seq (Plus not_space_at)
          (Seq (Atom (AChar (JsString.of_ascii ".")))
             (Plus not_space_at)))).

Definition isValidEmail (email : jsstring) : bool :=
  test email_regex email.

(** The members of [[\d\s\-\+\(\)]] *)
Definition phone_chars : list atom :=
  [ADigit; ASpace; AChar (JsString.of_ascii "-");
   AChar (JsString.of_ascii "+"); AChar (JsString.of_ascii "(");
   AChar (JsString.of_ascii ")")].

(** Membership in that class. *)
Definition phone_char (c : JsString.code_unit) : bool :=
  set_matches false phone_chars c.

(** [/^[\d\s\-\+\(\)]+$/] *)
Definition phone_regex : regex := Plus (Set_ false phone_chars).

Definition isValidPhone (phone : jsstring) : bool :=
  test phone_regex phone
  && (10 <=? List.length (remove_all ANonDigit phone))%nat.

(** *** Local storage helpers

    [localStorage], [JSON] and [console] belong to the browser. They are
    taken as they are: a storage area whose operations either return or
    throw, possibly changing the browser's state on the way. *)
Section Storage.
Variable Browser : Type.   (* the storage area and what guards it *)
Variable Error : Type.     (* what a [throw] carries *)
Variable Value : Type.     (* stored JavaScript values *)
Variable null : Value.
Variable getItem :
  jsstring -> Browser -> (Error + option jsstring) * Browser.
Variable setItem :
  jsstring -> jsstring -> Browser -> (Error + unit) * Browser.
Variable JSON_parse : jsstring -> Error + Value.
Variable JSON_stringify : Value -> Error + jsstring.

(** What a call can touch: the browser and the console. *)
Record World : Type := mkWorld {
  browser : Browser;
  console : list (jsstring * Error)
}.

(** Computations that change the world and return or throw; effects
    made before a [throw] stay. *)
Definition JS : Type -> Type := eitherT Error (state World).

Definition run {A : Type} (m : JS A) (w : World)
  : (Error + A) * World :=
  runState (unEitherT m) w.

Definition localStorage_getItem (key : jsstring)
  : JS (option jsstring) :=
  mkEitherT (mkState (fun w =>
    let (r, b) := getItem key (browser w) in
    (r, mkWorld b (console w)))).

Definition localStorage_setItem (key item : jsstring) : JS unit :=
  mkEitherT (mkState (fun w =>
    let (r, b) := setItem key item (browser w) in
    (r, mkWorld b (console w)))).

Definition console_error (message : string) (error : Error)
  : JS unit :=
  mkEitherT (mkState (fun w =>
    (inr tt, mkWorld (browser w) (console w ++ [(js message, error)])))).

(** A pure library call that returns or throws. *)
Definition call {A : Type} (r : Error + A) : JS A :=
  mkEitherT (ret r).

Definition getStorage (key : jsstring) : JS Value :=
  catch
    (item <- localStorage_getItem key ;;
     match item with
     | Some text =>
         if JsString.truthy text then call (JSON_parse text)
         else ret null
     | None => ret null
     end)
    (fun error =>
       console_error "Error getting storage:" error ;;
       ret null).

Definition setStorage (key : jsstring) (value : Value) : JS unit :=
  catch
    (text <- call (JSON_stringify value) ;;
     localStorage_setItem key text)
    (fun error => console_error "Error setting storage:" error).

End Storage.

Arguments mkWorld {Browser Error} _ _.
Arguments browser {Browser Error} _.
Arguments console {Browser Error} _.
Arguments run {Browser Error A} _ _.
Arguments getStorage {Browser Error Value} _ _ _ _.
Arguments setStorage {Browser Error Value} _ _ _ _.

(** A browser that refuses every access to storage, as when the user
    blocks site data: both operations throw and change nothing. *)
Module Blocked.
Definition Browser : Type := unit.
Definition Error : Type := string.
Definition Value : Type := jsstring.
Definition null : Value := js "null".
Definition getItem (key : jsstring) (b : Browser)
  : (Error + option jsstring) * Browser :=
  (inl "SecurityError"%string, b).
Definition setItem (key item : jsstring) (b : Browser)
  : (Error + unit) * Browser :=
  (inl "SecurityError"%string, b).
(* Values are kept as their JSON text. *)
Definition JSON_parse (text : jsstring) : Error + Value := inr text.
Definition JSON_stringify (value : Value) : Error + jsstring :=
  inr value.
Definition world : World Browser Error := mkWorld tt [].
End Blocked.

End Utils.

(* ===================================================================== *)
(** ** The contact form handler *)
(* ===================================================================== *)

Module ContactForm.
Import Regex.

(** A form control as [validateField] sees it: its value, [name], [type],
    the [required] attribute, and the inline error shown under it. *)
Record Field : Type := mkField {
  value : jsstring;
  name : jsstring;
  type : jsstring;
  required : bool;
  shownError : option jsstring
}.

(** [showFieldError] and [removeFieldError] for a control that is alone in
    its container: the code looks the error up as the first [.field-error]
    of [field.parentElement], which is the control's own when no other
    control shares the parent. *)
Definition showFieldError (field : Field) (message : jsstring) : Field :=
  {| value := value field; name := name field; type := type field;
     required := required field; shownError := Some message |}.

Definition removeFieldError (field : Field) : Field :=
  {| value := value field; name := name field; type := type field;
     required := required field; shownError := None |}.

(** The running pair [(isValid, errorMessage)] of [validateField]. *)
Definition verdict := (bool * jsstring)%type.

Definition fail_when (cond : bool) (message : string) (v : verdict)
  : verdict :=
  if cond then (false, js message) else v.

(** [/^[^\s@]+@[^\s@]+\.[^\s@]+$/], written out a second time in the
    handler. *)
Definition emailRegex : regex :=
  let part := Set_ true [ASpace; AChar (JsString.of_ascii "@")] in
  Seq (Plus part)
    (Seq (Atom (AChar (JsString.of_ascii "@")))
       (Seq (Plus part)
          (Seq (Atom (AChar (JsString.of_ascii "."))) (Plus part)))).

(** [validateField(field)]: the returned [isValid] and the field with its
    error shown or removed. *)
Definition validateField (field : Field) : bool * Field :=
  let value := JsString.trim (value field) in
  let name := name field in
  let required := required field in
  if JsString.eqb (type field) (js "hidden")
     || JsString.eqb name (js "_honey")
  then (true, field)
  else
    let v : verdict := (true, []) in
    let v := fail_when (required && negb (JsString.truthy value))
               "This field is required" v in
    let v := fail_when
               (JsString.eqb name (js "email") && JsString.truthy value
                && negb (test emailRegex value))
               "Please enter a valid email address" v in
    let v := fail_when
               (JsString.eqb name (js "phone") && JsString.truthy value
                && (List.length (remove_all ANonDigit value) <? 10)%nat)
               "Please enter a valid phone number (minimum 10 digits)" v in
    let v := fail_when
               (JsString.eqb name (js "service") && required
                && negb (JsString.truthy value))
               "Please select a service" v in
    let v := fail_when
               (JsString.eqb name (js "message") && JsString.truthy value
                && (List.length value <? 10)%nat)
               "Please provide more details (minimum 10 characters)" v in
    let '(isValid, errorMessage) := v in
    if negb isValid
    then (isValid, showFieldError field errorMessage)
    else (isValid, removeFieldError field).

(** The phone input of the form with a given raw value. *)
Definition phoneField (raw : jsstring) (req : bool) : Field :=
  {| value := raw; name := js "phone"; type := js "tel";
     required := req; shownError := None |}.

Definition emailField (raw : jsstring) (req : bool) : Field :=
  {| value := raw; name := js "email"; type := js "email";
     required := req; shownError := None |}.

End ContactForm.

(* ===================================================================== *)
(** ** js/slider.js : class Slider *)
(* ===================================================================== *)

Module Slider.
Local Open Scope Z_scope.

(** An options object given by a caller or by a breakpoint rule: any
    subset of the option keys. *)
Inductive Settings : Type := mkSettings {
  given_slidesToShow : option Z;
  given_slidesToScroll : option Z;
  given_autoplay : option bool;
  given_autoplaySpeed : option Z;
  given_infinite : option bool;
  given_dots : option bool;
  given_arrows : option bool;
  given_draggable : option bool;
  given_swipeThreshold : option Z;
  given_speed : option Z;
  given_easing : option jsstring;
  given_pauseOnHover : option bool;
  given_responsive : option (list Breakpoint)
}
with Breakpoint : Type := mkBreakpoint {
  breakpoint : Z;
  settings : Settings
}.

Record Options : Type := mkOptions {
  slidesToShow : Z;
  slidesToScroll : Z;
  autoplay : bool;
  autoplaySpeed : Z;
  infinite : bool;
  dots : bool;
  arrows : bool;
  draggable : bool;
  swipeThreshold : Z;
  speed : Z;
  easing : jsstring;
  pauseOnHover : bool;
  responsive : list Breakpoint
}.

(** Default options of the constructor. *)
Definition defaults : Options :=
  {| slidesToShow := 1;
     slidesToScroll := 1;
     autoplay := false;
     autoplaySpeed := 3000;
     infinite := true;
     dots := true;
     arrows := true;
     draggable := true;
     swipeThreshold := 50;
     speed := 300;
     easing := (js "ease-out");
     pauseOnHover := true;
     responsive := [] |}.

Definition pick {A : Type} (given : option A) (current : A) : A :=
  match given with
  | Some v => v
  | None => current
  end.

(** [Object.assign(target, source)] *)
Definition assign (target : Options) (source : Settings) : Options :=
  {| slidesToShow := pick (given_slidesToShow source) (slidesToShow target);
     slidesToScroll := pick (given_slidesToScroll source) (slidesToScroll target);
     autoplay := pick (given_autoplay source) (autoplay target);
     autoplaySpeed := pick (given_autoplaySpeed source) (autoplaySpeed target);
     infinite := pick (given_infinite source) (infinite target);
     dots := pick (given_dots source) (dots target);
     arrows := pick (given_arrows source) (arrows target);
     draggable := pick (given_draggable source) (draggable target);
     swipeThreshold := pick (given_swipeThreshold source) (swipeThreshold target);
     speed := pick (given_speed source) (speed target);
     easing := pick (given_easing source) (easing target);
     pauseOnHover := pick (given_pauseOnHover source) (pauseOnHover target);
     responsive := pick (given_responsive source) (responsive target) |}.

Definition noSettings : Settings :=
  mkSettings None None None None None None None None None None None None None.

Inductive Transition : Type := FromStylesheet | NoTransition | Animated.
Inductive Cursor : Type := CursorUnset | Grab | Grabbing.

(** The fields of a [Slider], the variables its drag handlers close over,
    the styles it writes on the track, the timeouts it has pending and
    the events it has dispatched. *)
Record t : Type := mkSlider {
  currentSlide : Z;
  totalSlides : Z;
  isAnimating : bool;
  autoplayInterval : bool;        (* an interval is set *)
  options : Options;
  startX : Z;                     (* let startX, in setupDragEvents *)
  currentX : Z;                   (* let currentX *)
  isDragging : bool;              (* let isDragging *)
  slideWidth : Z;                 (* slides[0].offsetWidth *)
  trackTransform : Z;             (* track.style.transform: translateX, px *)
  trackTransition : Transition;   (* track.style.transition *)
  trackCursor : Cursor;           (* track.style.cursor *)
  activeSlide : Z;                (* the index marked active *)
  lockTimers : nat;               (* pending timeouts of goToSlide *)
  restoreTimers : nat;            (* pending timeouts of handleInfiniteLoop *)
  dispatched : list Z             (* slideChange events: detail.currentSlide *)
}.

Definition set_currentSlide (v : Z) (s : t) : t :=
  mkSlider v (totalSlides s) (isAnimating s) (autoplayInterval s)
    (options s) (startX s) (currentX s) (isDragging s) (slideWidth s)
    (trackTransform s) (trackTransition s) (trackCursor s) (activeSlide s)
    (lockTimers s) (restoreTimers s) (dispatched s).

Definition set_totalSlides (v : Z) (s : t) : t :=
  mkSlider (currentSlide s) v (isAnimating s) (autoplayInterval s)
    (options s) (startX s) (currentX s) (isDragging s) (slideWidth s)
    (trackTransform s) (trackTransition s) (trackCursor s) (activeSlide s)
    (lockTimers s) (restoreTimers s) (dispatched s).

Definition set_isAnimating (v : bool) (s : t) : t :=
  mkSlider (currentSlide s) (totalSlides s) v (autoplayInterval s)
    (options s) (startX s) (currentX s) (isDragging s) (slideWidth s)
    (trackTransform s) (trackTransition s) (trackCursor s) (activeSlide s)
    (lockTimers s) (restoreTimers s) (dispatched s).

Definition set_autoplayInterval (v : bool) (s : t) : t :=
  mkSlider (currentSlide s) (totalSlides s) (isAnimating s) v (options s)
    (startX s) (currentX s) (isDragging s) (slideWidth s)
    (trackTransform s) (trackTransition s) (trackCursor s) (activeSlide s)
    (lockTimers s) (restoreTimers s) (dispatched s).

Definition set_options (v : Options) (s : t) : t :=
  mkSlider (currentSlide s) (totalSlides s) (isAnimating s)
    (autoplayInterval s) v (startX s) (currentX s) (isDragging s)
    (slideWidth s) (trackTransform s) (trackTransition s) (trackCursor s)
    (activeSlide s) (lockTimers s) (restoreTimers s) (dispatched s).

Definition set_startX (v : Z) (s : t) : t :=
  mkSlider (currentSlide s) (totalSlides s) (isAnimating s)
    (autoplayInterval s) (options s) v (currentX s) (isDragging s)
    (slideWidth s) (trackTransform s) (trackTransition s) (trackCursor s)
    (activeSlide s) (lockTimers s) (restoreTimers s) (dispatched s).

Definition set_currentX (v : Z) (s : t) : t :=
  mkSlider (currentSlide s) (totalSlides s) (isAnimating s)
    (autoplayInterval s) (options s) (startX s) v (isDragging s)
    (slideWidth s) (trackTransform s) (trackTransition s) (trackCursor s)
    (activeSlide s) (lockTimers s) (restoreTimers s) (dispatched s).

Definition set_isDragging (v : bool) (s : t) : t :=
  mkSlider (currentSlide s) (totalSlides s) (isAnimating s)
    (autoplayInterval s) (options s) (startX s) (currentX s) v
    (slideWidth s) (trackTransform s) (trackTransition s) (trackCursor s)
    (activeSlide s) (lockTimers s) (restoreTimers s) (dispatched s).

Definition set_trackTransform (v : Z) (s : t) : t :=
  mkSlider (currentSlide s) (totalSlides s) (isAnimating s)
    (autoplayInterval s) (options s) (startX s) (currentX s)
    (isDragging s) (slideWidth s) v (trackTransition s) (trackCursor s)
    (activeSlide s) (lockTimers s) (restoreTimers s) (dispatched s).

Definition set_trackTransition (v : Transition) (s : t) : t :=
  mkSlider (currentSlide s) (totalSlides s) (isAnimating s)
    (autoplayInterval s) (options s) (startX s) (currentX s)
    (isDragging s) (slideWidth s) (trackTransform s) v (trackCursor s)
    (activeSlide s) (lockTimers s) (restoreTimers s) (dispatched s).

Definition set_trackCursor (v : Cursor) (s : t) : t :=
  mkSlider (currentSlide s) (totalSlides s) (isAnimating s)
    (autoplayInterval s) (options s) (startX s) (currentX s)
    (isDragging s) (slideWidth s) (trackTransform s) (trackTransition s) v
    (activeSlide s) (lockTimers s) (restoreTimers s) (dispatched s).

Definition set_activeSlide (v : Z) (s : t) : t :=
  mkSlider (currentSlide s) (totalSlides s) (isAnimating s)
    (autoplayInterval s) (options s) (startX s) (currentX s)
    (isDragging s) (slideWidth s) (trackTransform s) (trackTransition s)
    (trackCursor s) v (lockTimers s) (restoreTimers s) (dispatched s).

Definition set_lockTimers (v : nat) (s : t) : t :=
  mkSlider (currentSlide s) (totalSlides s) (isAnimating s)
    (autoplayInterval s) (options s) (startX s) (currentX s)
    (isDragging s) (slideWidth s) (trackTransform s) (trackTransition s)
    (trackCursor s) (activeSlide s) v (restoreTimers s) (dispatched s).

Definition set_restoreTimers (v : nat) (s : t) : t :=
  mkSlider (currentSlide s) (totalSlides s) (isAnimating s)
    (autoplayInterval s) (options s) (startX s) (currentX s)
    (isDragging s) (slideWidth s) (trackTransform s) (trackTransition s)
    (trackCursor s) (activeSlide s) (lockTimers s) v (dispatched s).

Definition set_dispatched (v : list Z) (s : t) : t :=
  mkSlider (currentSlide s) (totalSlides s) (isAnimating s)
    (autoplayInterval s) (options s) (startX s) (currentX s)
    (isDragging s) (slideWidth s) (trackTransform s) (trackTransition s)
    (trackCursor s) (activeSlide s) (lockTimers s) (restoreTimers s) v.

(** *** Methods *)

(** [updateActiveStates()]: the index that every slide and dot is compared
    with. Slide [index] carries the active class when it is one of the
    slides and [index] is this number; [SliderEnds.slideIsActive] reads it
    off. *)
Definition updateActiveStates (s : t) : t :=
  set_activeSlide (currentSlide s) s.

(** [dispatchEvent('slideChange', { currentSlide })] *)
Definition dispatchEvent (detail : Z) (s : t) : t :=
  set_dispatched (dispatched s ++ [detail]) s.

(** [goToSlide(index)], on a slider that has slides (with none,
    [this.slides[0]] is undefined and the call throws after taking the
    lock). The [setTimeout] it ends with is one more pending lock timeout;
    its callback is [lockTimeout] below. *)
Definition goToSlide (index : Z) (s : t) : t :=
  if isAnimating s then s
  else
    let s := set_isAnimating true s in
    let s := set_currentSlide index s in
    let offset := - index * slideWidth s in
    let s := set_trackTransform offset s in
    let s := updateActiveStates s in
    let s := set_lockTimers (S (lockTimers s)) s in
    dispatchEvent (currentSlide s) s.

(** The index [next()] hands to [goToSlide]. *)
Definition nextTarget (s : t) : Z :=
  let nextSlide := currentSlide s + slidesToScroll (options s) in
  if nextSlide >=? totalSlides s then
    if infinite (options s) then 0 else totalSlides s - 1
  else nextSlide.

Definition next (s : t) : t := goToSlide (nextTarget s) s.

(** The index [prev()] hands to [goToSlide]. *)
Definition prevTarget (s : t) : Z :=
  let prevSlide := currentSlide s - slidesToScroll (options s) in
  if prevSlide <? 0 then
    if infinite (options s) then totalSlides s - 1 else 0
  else prevSlide.

Definition prev (s : t) : t := goToSlide (prevTarget s) s.

Definition handleInfiniteLoop (s : t) : t :=
  if currentSlide s >=? totalSlides s then
    let s := set_currentSlide 0 s in
    let s := set_trackTransition NoTransition s in
    let s := goToSlide 0 s in
    set_restoreTimers (S (restoreTimers s)) s
  else if currentSlide s <? 0 then
    let s := set_currentSlide (totalSlides s - 1) s in
    let s := set_trackTransition NoTransition s in
    let s := goToSlide (totalSlides s - 1) s in
    set_restoreTimers (S (restoreTimers s)) s
  else s.

(** The callback [goToSlide] schedules after [options.speed] ms. *)
Definition lockTimeout (s : t) : t :=
  let s := set_isAnimating false s in
  if infinite (options s) then handleInfiniteLoop s else s.

(** The callback [handleInfiniteLoop] schedules after 50 ms. *)
Definition restoreTimeout (s : t) : t :=
  set_trackTransition Animated s.

Definition startAutoplay (s : t) : t :=
  if autoplayInterval s then s else set_autoplayInterval true s.

Definition stopAutoplay (s : t) : t :=
  if autoplayInterval s then set_autoplayInterval false s else s.

(** The handlers of [setupDragEvents]; [pageX] is the pointer position
    read from the event. [handleEnd] reads no position. *)
Definition handleStart (pageX : Z) (s : t) : t :=
  let s := set_isDragging true s in
  let s := set_startX pageX s in
  set_trackCursor Grabbing s.

Definition handleMove (pageX : Z) (s : t) : t :=
  if negb (isDragging s) then s
  else
    let s := set_currentX pageX s in
    let diff := currentX s - startX s in
    set_trackTransform diff s.

Definition handleEnd (s : t) : t :=
  if negb (isDragging s) then s
  else
    let s := set_isDragging false s in
    let s := set_trackCursor Grab s in
    let diff := currentX s - startX s in
    if Z.abs diff >? swipeThreshold (options s) then
      if diff >? 0 then prev s else next s
    else goToSlide (currentSlide s) s.

(** The body of the [forEach] of [handleResize]. *)
Definition applyBreakpoint (windowWidth : Z) (opts : Options)
           (rule : Breakpoint) : Options :=
  if windowWidth <=? breakpoint rule then assign opts (settings rule)
  else opts.

(** [handleResize()], with [window.innerWidth] as argument. The array
    walked is the one [options.responsive] names when the walk starts. *)
Definition handleResize (windowWidth : Z) (s : t) : t :=
  let opts :=
    fold_left (applyBreakpoint windowWidth) (responsive (options s))
      (options s) in
  let s := set_options opts s in
  goToSlide (currentSlide s) s.

(** *** Construction *)

(** The constructor up to its call of [init()]. *)
Definition construct (given : Settings) (width : Z) : t :=
  {| currentSlide := 0; totalSlides := 0; isAnimating := false;
     autoplayInterval := false; options := assign defaults given;
     startX := 0; currentX := 0; isDragging := false;
     slideWidth := width; trackTransform := 0;
     trackTransition := FromStylesheet; trackCursor := CursorUnset;
     activeSlide := 0; lockTimers := 0; restoreTimers := 0;
     dispatched := [] |}.

(** [init()] on an element that has [slideCount] slides. [setupSlider],
    [createControls] and [setupEvents] add classes, clones, buttons and
    listeners to the page and touch no field read here. *)
Definition init (slideCount : nat) (s : t) : t :=
  let s := set_totalSlides (Z.of_nat slideCount) s in
  if totalSlides s =? 0 then s
  else
    let s := goToSlide 0 s in
    if autoplay (options s) then startAutoplay s else s.

(** [new Slider(element, given)] *)
Definition create (given : Settings) (slideCount : nat) (width : Z) : t :=
  init slideCount (construct given width).

(** *** The event loop *)

(** What can happen to a slider: calls of its methods (from arrows, dots,
    keys or other scripts), pointer events, the firing of a pending
    timeout, a tick of the autoplay interval, a resize. *)
Inductive Op : Type :=
| Next
| Prev
| GoTo (index : Z)
| DragStart (pageX : Z)
| DragMove (pageX : Z)
| DragEnd
| LockTimeout
| RestoreTimeout
| AutoplayTick
| MouseEnter
| MouseLeave
| Resize (windowWidth : Z).

(** What each does. The pointer, hover and resize handlers are those that
    [setupEvents] installs when the slider is created [draggable], with
    [pauseOnHover] and [autoplay], or with [responsive] rules; on a slider
    created without, these events do not occur. *)
Definition step (s : t) (op : Op) : t :=
  match op with
  | Next => next s
  | Prev => prev s
  | GoTo index => goToSlide index s
  | DragStart pageX => handleStart pageX s
  | DragMove pageX => handleMove pageX s
  | DragEnd => handleEnd s
  | LockTimeout =>
      match lockTimers s with
      | O => s
      | S n => lockTimeout (set_lockTimers n s)
      end
  | RestoreTimeout =>
      match restoreTimers s with
      | O => s
      | S n => restoreTimeout (set_restoreTimers n s)
      end
  | AutoplayTick => if autoplayInterval s then next s else s
  | MouseEnter => stopAutoplay s
  | MouseLeave => startAutoplay s
  | Resize windowWidth => handleResize windowWidth s
  end.

Definition run (ops : list Op) (s : t) : t := fold_left step ops s.

(** A drag gesture: the pointer goes down at [start], moves through
    [moves], and is released. *)
Definition gesture (start : Z) (moves : list Z) : list Op :=
  DragStart start :: map DragMove moves ++ [DragEnd].

(** Where the pointer is when it is released, and how far that is from
    where it went down. *)
Definition releasePosition (start : Z) (moves : list Z) : Z :=
  last moves start.

Definition pointerDelta (start : Z) (moves : list Z) : Z :=
  releasePosition start moves - start.

(** The value a breakpoint walk leaves in an option: that of the last
    matching rule that gives it, if any. *)
Fixpoint lastGiven {A : Type} (given : Settings -> option A)
         (windowWidth : Z) (rules : list Breakpoint) : option A :=
  match rules with
  | [] => None
  | rule :: rest =>
      match lastGiven given windowWidth rest with
      | Some v => Some v
      | None =>
          if windowWidth <=? breakpoint rule then given (settings rule)
          else None
      end
  end.

(** The rules a window width matches, in the order of the array. *)
Definition matching (windowWidth : Z) (rules : list Breakpoint)
  : list Breakpoint :=
  filter (fun rule => windowWidth <=? breakpoint rule) rules.

(** One options object that stands for a whole breakpoint walk. *)
Definition merged (windowWidth : Z) (rules : list Breakpoint) : Settings :=
  {| given_slidesToShow := lastGiven given_slidesToShow windowWidth rules;
     given_slidesToScroll := lastGiven given_slidesToScroll windowWidth rules;
     given_autoplay := lastGiven given_autoplay windowWidth rules;
     given_autoplaySpeed := lastGiven given_autoplaySpeed windowWidth rules;
     given_infinite := lastGiven given_infinite windowWidth rules;
     given_dots := lastGiven given_dots windowWidth rules;
     given_arrows := lastGiven given_arrows windowWidth rules;
     given_draggable := lastGiven given_draggable windowWidth rules;
     given_swipeThreshold := lastGiven given_swipeThreshold windowWidth rules;
     given_speed := lastGiven given_speed windowWidth rules;
     given_easing := lastGiven given_easing windowWidth rules;
     given_pauseOnHover := lastGiven given_pauseOnHover windowWidth rules;
     given_responsive := lastGiven given_responsive windowWidth rules |}.

(** The operations of a slider that is navigated and left to run: all but
    a resize, with [goToSlide] called on indices of existing slides. *)
Definition navigation (slideCount : nat) (op : Op) : Prop :=
  match op with
  | GoTo index => 0 <= index < Z.of_nat slideCount
  | Resize _ => False
  | _ => True
  end.

(** What navigation keeps true of a slider that does not loop. *)
Definition Steady (slideCount : nat) (s : t) : Prop :=
  infinite (options s) = false
  /\ 0 <= slidesToScroll (options s)
  /\ totalSlides s = Z.of_nat slideCount
  /\ 0 <= currentSlide s < totalSlides s.

(** A settings object that gives [infinite] and nothing else. *)
Definition withInfinite (b : bool) : Settings :=
  {| given_slidesToShow := None; given_slidesToScroll := None;
     given_autoplay := None; given_autoplaySpeed := None;
     given_infinite := Some b; given_dots := None; given_arrows := None;
     given_draggable := None; given_swipeThreshold := None;
     given_speed := None; given_easing := None;
     given_pauseOnHover := None; given_responsive := None |}.

(** A settings object that gives [slidesToShow] and nothing else. *)
Definition withSlidesToShow (n : Z) : Settings :=
  {| given_slidesToShow := Some n; given_slidesToScroll := None;
     given_autoplay := None; given_autoplaySpeed := None;
     given_infinite := None; given_dots := None; given_arrows := None;
     given_draggable := None; given_swipeThreshold := None;
     given_speed := None; given_easing := None;
     given_pauseOnHover := None; given_responsive := None |}.

(** A settings object that gives [responsive] and nothing else. *)
Definition withResponsive (rules : list Breakpoint) : Settings :=
  {| given_slidesToShow := None; given_slidesToScroll := None;
     given_autoplay := None; given_autoplaySpeed := None;
     given_infinite := None; given_dots := None; given_arrows := None;
     given_draggable := None; given_swipeThreshold := None;
     given_speed := None; given_easing := None;
     given_pauseOnHover := None; given_responsive := Some rules |}.

(** Two rules in ascending order of threshold, as in a configuration
    for tablets and small desktops. *)
Definition rule768 : Breakpoint :=
  {| breakpoint := 768; settings := withSlidesToShow 1 |}.
Definition rule1024 : Breakpoint :=
  {| breakpoint := 1024; settings := withSlidesToShow 2 |}.

(** A slider with those two rules, five slides of 400px, at rest after
    its first transition. *)
Definition responsiveSlider : t :=
  run [LockTimeout] (create (withResponsive [rule768; rule1024]) 5 400).

(** A slider with default options and five slides of 400px, at rest on
    slide [1]. *)
Definition restingSlider : t :=
  run [LockTimeout; GoTo 1; LockTimeout] (create noSettings 5 400).

(** A slider with default options and three slides of 400px, at rest
    after its first transition. *)
Definition freshSlider : t :=
  run [LockTimeout] (create noSettings 3 400).

End Slider.

(* ===================================================================== *)
(** ** Slider: what holds along a run *)
(* ===================================================================== *)

Module SliderRun.
Import Slider.
Local Open Scope Z_scope.

(** A slider whose index names one of its [slideCount] slides and that
    scrolls forward by a non-negative amount. *)
Definition Ranged (slideCount : nat) (s : t) : Prop :=
  0 <= slidesToScroll (options s)
  /\ totalSlides s = Z.of_nat slideCount
  /\ 0 <= currentSlide s < totalSlides s.

(** The clone-and-jump of [handleInfiniteLoop] has not run. *)
Definition NeverJumped (s : t) : Prop :=
  restoreTimers s = 0%nat /\ trackTransition s = FromStylesheet.

(** The active marker and the last [slideChange] name the current slide. *)
Definition Announced (s : t) : Prop :=
  activeSlide s = currentSlide s
  /\ exists earlier, dispatched s = earlier ++ [currentSlide s].

(** [next()] and the end of its transition, [k] times over. *)
Definition advance (k : nat) : list Op :=
  List.concat (repeat [Next; LockTimeout] k).

End SliderRun.

(* ===================================================================== *)
(** ** The contact form: submission *)
(* ===================================================================== *)

Module ContactFormSubmit.
Import ContactForm.

(** The form: its controls in document order and its submit button. *)
Record Form : Type := mkForm {
  fields : list Field;
  submitDisabled : bool;
  submitSending : bool      (* the button shows "Sending Message..." *)
}.

(** What a [submit] event leaves behind, apart from the inline errors of
    the controls: whether the default was prevented, the notification
    shown, and the state of the button. Where the inline errors end up is
    the business of [validateField] on each control and of the containers
    the controls sit in, and is not recorded here. *)
Record Submitted : Type := mkSubmitted {
  defaultPrevented : bool;
  notification : option (jsstring * jsstring);
  buttonDisabled : bool;
  buttonSending : bool
}.

(** The [forEach] of [handleSubmit]: every field is validated in turn, and
    [isValid] is cleared at each one that fails. *)
Definition validateAll (fs : list Field) : bool :=
  fold_left
    (fun (isValid : bool) (field : Field) =>
       if negb (fst (validateField field)) then false else isValid)
    fs true.

Definition setLoadingState (loading : bool) (f : Form) : Form :=
  if loading
  then {| fields := fields f; submitDisabled := true;
          submitSending := true |}
  else {| fields := fields f; submitDisabled := false;
          submitSending := false |}.

Definition handleSubmit (f : Form) : Submitted :=
  let isValid := validateAll (fields f) in
  if negb isValid
  then {| defaultPrevented := true;
          notification :=
            Some (js "Please fix the errors in the form", js "error");
          buttonDisabled := submitDisabled f;
          buttonSending := submitSending f |}
  else
    let f := setLoadingState true f in
    {| defaultPrevented := false;
       notification := None;
       buttonDisabled := submitDisabled f;
       buttonSending := submitSending f |}.

(** Whether a control passes [validateField]. *)
Definition passes (field : Field) : bool := fst (validateField field).

(** The message box of the form with a given raw value. *)
Definition messageField (raw : jsstring) (req : bool) : Field :=
  {| value := raw; name := js "message"; type := js "textarea";
     required := req; shownError := None |}.

(** What [[^\s@]] admits. *)
Definition email_char (c : JsString.code_unit) : bool :=
  negb (JsString.is_space c) && negb (N.eqb c (JsString.of_ascii "@")).

Definition atSign : JsString.code_unit := JsString.of_ascii "@".
Definition fullStop : JsString.code_unit := JsString.of_ascii ".".

End ContactFormSubmit.

(* ===================================================================== *)
(** ** js/utils.js : text, timing and array helpers *)
(* ===================================================================== *)

Module Text.

(** [text.substring(0, length)]: a negative end counts as [0], an end past
    the text as the end of the text. *)
Definition substring0 (length : Z) (text : jsstring) : jsstring :=
  firstn (Z.to_nat length) text.

(** [truncate(text, length, suffix)] *)
Definition truncate (text : jsstring) (length : Z) (suffix : jsstring)
  : jsstring :=
  if (Z.of_nat (List.length text) <=? length)%Z then text
  else JsString.trim (substring0 length text) ++ suffix.

End Text.

Module Debounce.
Section Debounce.
Variable Args : Type.

(** The closure of [debounce(func, wait)] and what it has set in motion:
    the variable [timeout], the timers of this closure that the browser
    still holds (each with the arguments its [later] captured), the ids
    the browser has handed out, and the calls of [func] so far. *)
Record t : Type := mk {
  timeout : option nat;
  timers : list (nat * Args);
  nextId : nat;
  calls : list Args
}.

Definition create : t := mk None [] 0 [].

(** [clearTimeout(id)]; clearing [undefined] or a timer that is gone does
    nothing. *)
Definition clearTimeout (id : option nat) (ts : list (nat * Args))
  : list (nat * Args) :=
  match id with
  | None => ts
  | Some i => filter (fun p => negb (Nat.eqb (fst p) i)) ts
  end.

(** [executedFunction(...args)] *)
Definition executedFunction (args : Args) (s : t) : t :=
  let ts := clearTimeout (timeout s) (timers s) in
  let id := nextId s in
  mk (Some id) (ts ++ [(id, args)]) (S id) (calls s).

(** [later], the callback of a timer, with the arguments it captured. *)
Definition later (args : Args) (s : t) : t :=
  let ts := clearTimeout (timeout s) (timers s) in
  mk (timeout s) ts (nextId s) (calls s ++ [args]).

(** The browser runs timer [id] if it still holds it. *)
Definition fire (id : nat) (s : t) : t :=
  match find (fun p => Nat.eqb (fst p) id) (timers s) with
  | None => s
  | Some (_, args) =>
      later args
        (mk (timeout s)
            (filter (fun p => negb (Nat.eqb (fst p) id)) (timers s))
            (nextId s) (calls s))
  end.

Inductive Event : Type :=
| Call (args : Args)
| Fire (id : nat).

Definition step (s : t) (e : Event) : t :=
  match e with
  | Call args => executedFunction args s
  | Fire id => fire id s
  end.

Definition run (events : list Event) (s : t) : t :=
  fold_left step events s.

(** At most one timer is alive, and it is the one [timeout] names. *)
Definition Single (s : t) : Prop :=
  timers s = []
  \/ exists id args, timeout s = Some id /\ timers s = [(id, args)].

End Debounce.

Arguments mk {Args} _ _ _ _.
Arguments Single {Args} _.
Arguments timeout {Args} _.
Arguments timers {Args} _.
Arguments nextId {Args} _.
Arguments calls {Args} _.
Arguments create {Args}.
Arguments executedFunction {Args} _ _.
Arguments fire {Args} _ _.
Arguments Call {Args} _.
Arguments Fire {Args} _.
Arguments step {Args} _ _.
Arguments run {Args} _ _.

End Debounce.

Module Throttle.
Section Throttle.
Variable Args : Type.

(** The closure of [throttle(func, limit)]: the flag [inThrottle], the
    timeouts pending to clear it, and the calls of [func] so far. *)
Record t : Type := mk {
  inThrottle : bool;
  resets : nat;
  calls : list Args
}.

Definition create : t := mk false 0 [].

(** The returned function. *)
Definition invoke (args : Args) (s : t) : t :=
  if negb (inThrottle s)
  then mk true (S (resets s)) (calls s ++ [args])
  else s.

(** The callback of the timeout: [inThrottle = false]. *)
Definition reset (s : t) : t :=
  match resets s with
  | O => s
  | S n => mk false n (calls s)
  end.

Inductive Event : Type :=
| Invoke (args : Args)
| Timeout.

Definition step (s : t) (e : Event) : t :=
  match e with
  | Invoke args => invoke args s
  | Timeout => reset s
  end.

Definition run (events : list Event) (s : t) : t :=
  fold_left step events s.

Definition isTimeout (e : Event) : bool :=
  match e with Timeout => true | Invoke _ => false end.

End Throttle.

Arguments mk {Args} _ _ _.
Arguments inThrottle {Args} _.
Arguments resets {Args} _.
Arguments calls {Args} _.
Arguments create {Args}.
Arguments invoke {Args} _ _.
Arguments reset {Args} _.
Arguments Invoke {Args} _.
Arguments Timeout {Args}.
Arguments step {Args} _ _.
Arguments run {Args} _ _.
Arguments isTimeout {Args} _.

End Throttle.

Module Shuffle.
Section Shuffle.
Variable A : Type.

(** [arr[i] = v] on an index of the array. *)
Fixpoint setNth (i : nat) (v : A) (arr : list A) : list A :=
  match arr, i with
  | [], _ => []
  | _ :: rest, O => v :: rest
  | a :: rest, S i' => a :: setNth i' v rest
  end.

(** [[arr[i], arr[j]] = [arr[j], arr[i]]]: both are read, then [arr[i]] and
    [arr[j]] are written in that order. Both indices are on the array
    whenever [shuffle] gets here. *)
Definition swap (i j : nat) (arr : list A) : list A :=
  match nth_error arr i, nth_error arr j with
  | Some ai, Some aj => setNth j ai (setNth i aj arr)
  | _, _ => arr
  end.

(** [draw i] is what [Math.floor(Math.random() * (i + 1))] gives in the
    round for [i]: some index from [0] to [i]. *)
Variable draw : nat -> nat.

(** The [for] loop, from [i] down to [1]. *)
Fixpoint loop (i : nat) (arr : list A) : list A :=
  match i with
  | O => arr
  | S i' => loop i' (swap i (draw i) arr)
  end.

Definition shuffle (array : list A) : list A :=
  loop (List.length array - 1) array.

End Shuffle.

Arguments setNth {A} _ _ _.
Arguments swap {A} _ _ _.
Arguments loop {A} _ _ _.
Arguments shuffle {A} _ _.

End Shuffle.

(* ===================================================================== *)
(** ** js/utils.js : cookies *)
(* ===================================================================== *)

Module Cookies.

Fixpoint isPrefix (p s : jsstring) : bool :=
  match p, s with
  | [], _ => true
  | _ :: _, [] => false
  | a :: p', b :: s' => N.eqb a b && isPrefix p' s'
  end.

(** [s.split(sep)] for a separator that is not empty, read from left to
    right: [piece] is what has been read since the last separator, [skip]
    the characters of a separator just found that are still to pass. *)
Fixpoint splitFrom (sep s : jsstring) (skip : nat) (piece : jsstring)
  : list jsstring :=
  match s with
  | [] => [piece]
  | c :: rest =>
      match skip with
      | S k => splitFrom sep rest k piece
      | O =>
          if isPrefix sep s
          then piece :: splitFrom sep rest (List.length sep - 1) []
          else splitFrom sep rest 0 (piece ++ [c])
      end
  end.

Definition split (sep s : jsstring) : list jsstring :=
  splitFrom sep s 0 [].

(** [getCookie(name)], with [document.cookie] as argument; [None] is
    [null]. *)
Definition getCookie (name cookie : jsstring) : option jsstring :=
  let value := js "; " ++ cookie in
  let parts := split (js "; " ++ name ++ js "=") value in
  if Nat.eqb (List.length parts) 2
  then Some (hd [] (split (js ";") (last parts [])))
  else None.

(** What [document.cookie] reads for a jar of cookies: [name=value] pairs
    joined by a semicolon and a space. *)
Fixpoint render (jar : list (jsstring * jsstring)) : jsstring :=
  match jar with
  | [] => []
  | (k, v) :: rest =>
      match rest with
      | [] => k ++ js "=" ++ v
      | _ :: _ => k ++ js "=" ++ v ++ js "; " ++ render rest
      end
  end.

(** The same with the separator in front of every pair. *)
Fixpoint segments (jar : list (jsstring * jsstring)) : jsstring :=
  match jar with
  | [] => []
  | (k, v) :: rest => js "; " ++ k ++ js "=" ++ v ++ segments rest
  end.

(** A cookie value holds no semicolon; a cookie name holds neither a
    semicolon nor an equals sign. *)
Definition clean (s : jsstring) : bool :=
  forallb (fun c => negb (N.eqb c (JsString.of_ascii ";"))) s.

Definition plainName (s : jsstring) : bool :=
  forallb (fun c => negb (N.eqb c (JsString.of_ascii ";"))
                    && negb (N.eqb c (JsString.of_ascii "="))) s.

Definition Tidy (jar : list (jsstring * jsstring)) : Prop :=
  Forall (fun kv => plainName (fst kv) = true /\ clean (snd kv) = true) jar.

End Cookies.

(* ===================================================================== *)
(** ** js/navigation.js : the theme *)
(* ===================================================================== *)

Module Theme.
Import Utils.

(** [style.display] of an icon. *)
Inductive Display : Type := DisplayUnset | DisplayBlock | DisplayNone.

(** The [.sun] and [.moon] children of the theme toggle, where the button
    has them. *)
Record Toggle : Type := mkToggle {
  sunIcon : option Display;
  moonIcon : option Display
}.

(** What the theme code reads and writes on the page: the [data-theme]
    attribute of the root element and the element [#theme-toggle], where
    the page has one. *)
Record Page : Type := mkPage {
  dataTheme : option jsstring;
  themeToggle : option Toggle
}.

Section Theme.
Variable Browser : Type.
Variable Error : Type.
Variable Value : Type.
Variable setItem :
  jsstring -> jsstring -> Browser -> (Error + unit) * Browser.
Variable JSON_stringify : Value -> Error + jsstring.
Variable ofString : jsstring -> Value.   (* a string, as a value *)
Variable typeError : Error.   (* thrown on reading a property of null *)

(** A step of the theme code: it returns or throws, and leaves a page and
    a world. *)
Definition Outcome : Type :=
  ((Error + unit) * (Page * World Browser Error))%type.

(** The two branches of the [if] of [setTheme], on the icons found. *)
Definition showIcons (sunShown moonShown : Display) (p : Page)
           (t : Toggle) (w : World Browser Error) : Outcome :=
  match sunIcon t with
  | None => (inl typeError, (p, w))
  | Some _ =>
      let t1 := mkToggle (Some sunShown) (moonIcon t) in
      match moonIcon t with
      | None => (inl typeError, (mkPage (dataTheme p) (Some t1), w))
      | Some _ =>
          let t2 := mkToggle (Some sunShown) (Some moonShown) in
          (inr tt, (mkPage (dataTheme p) (Some t2), w))
      end
  end.

(** [setTheme(theme)] *)
Definition setTheme (theme : jsstring) (p : Page)
           (w : World Browser Error) : Outcome :=
  let p := mkPage (Some theme) (themeToggle p) in
  let (stored, w) :=
    run (setStorage setItem JSON_stringify (js "theme") (ofString theme))
      w in
  match stored with
  | inl e => (inl e, (p, w))
  | inr _ =>
      match themeToggle p with
      | None => (inl typeError, (p, w))
      | Some t =>
          if JsString.eqb theme (js "dark")
          then showIcons DisplayBlock DisplayNone p t w
          else showIcons DisplayNone DisplayBlock p t w
      end
  end.

(** [toggleTheme()] *)
Definition toggleTheme (p : Page) (w : World Browser Error) : Outcome :=
  let currentTheme := dataTheme p in
  let isDark :=
    match currentTheme with
    | Some t => JsString.eqb t (js "dark")
    | None => false
    end in
  let newTheme := if isDark then js "light" else js "dark" in
  setTheme newTheme p w.

End Theme.

Arguments setTheme {Browser Error Value} _ _ _ _ _ _ _.
Arguments toggleTheme {Browser Error Value} _ _ _ _ _ _.

(** A toggle button with both icons. *)
Definition fullToggle : Toggle :=
  mkToggle (Some DisplayUnset) (Some DisplayUnset).

(** A browser whose storage works: items are kept in a list, the newest
    first. *)
Module Working.
Definition Browser : Type := list (jsstring * jsstring).
Definition Error : Type := string.
Definition Value : Type := jsstring.
Definition null : Value := js "null".
Fixpoint lookup (key : jsstring) (b : Browser) : option jsstring :=
  match b with
  | [] => None
  | (k, v) :: rest => if JsString.eqb k key then Some v else lookup key rest
  end.
Definition getItem (key : jsstring) (b : Browser)
  : (Error + option jsstring) * Browser :=
  (inr (lookup key b), b).
Definition setItem (key item : jsstring) (b : Browser)
  : (Error + unit) * Browser :=
  (inr tt, (key, item) :: b).
(* Values are strings without quotes or escapes; their JSON text is the
   string between double quotes. *)
Definition JSON_stringify (value : Value) : Error + jsstring :=
  inr ([34%N] ++ value ++ [34%N]).
Definition JSON_parse (text : jsstring) : Error + Value :=
  match text with
  | 34%N :: rest =>
      match rev rest with
      | 34%N :: inner => inr (rev inner)
      | _ => inl "SyntaxError"%string
      end
  | _ => inl "SyntaxError"%string
  end.
Definition world : World Browser Error := mkWorld [] [].
End Working.

End Theme.

(* ===================================================================== *)
(** ** Slider: the ends of the track, and which slide is marked *)
(* ===================================================================== *)

Module SliderEnds.
Import Slider.
Local Open Scope Z_scope.

(** A settings object that gives [infinite] and [slidesToScroll]. *)
Definition withScroll (loop : bool) (step : Z) : Settings :=
  {| given_slidesToShow := None; given_slidesToScroll := Some step;
     given_autoplay := None; given_autoplaySpeed := None;
     given_infinite := Some loop; given_dots := None; given_arrows := None;
     given_draggable := None; given_swipeThreshold := None;
     given_speed := None; given_easing := None;
     given_pauseOnHover := None; given_responsive := None |}.

(** A slider of five slides that scrolls by two, at rest on slide
    [index]. *)
Definition restingAt (loop : bool) (index : Z) : t :=
  run [LockTimeout; GoTo index; LockTimeout]
      (create (withScroll loop 2) 5 400).

(** Whether slide number [index] of [this.slides] carries the active
    class. [updateActiveStates] walks the [totalSlides] slides and marks
    the one whose index is [currentSlide] at that moment; when no slide
    has that index, none is marked. *)
Definition slideIsActive (s : t) (index : Z) : bool :=
  (0 <=? index) && (index <? totalSlides s) && (index =? activeSlide s).

End SliderEnds.

(* ===================================================================== *)
(** * Properties *)
(* ===================================================================== *)

(** ** The matcher decides the language of a pattern *)

Module RegexFacts.
Import Regex.

Lemma nullable_Matches (r : regex) : nullable r = true <-> Matches r [].
Proof.
  split.
  - induction r; simpl; intros H; try discriminate.
    + constructor.
    + apply andb_true_iff in H as [H1 H2].
      change (@nil JsString.code_unit) with (@nil JsString.code_unit ++ []).
      constructor; auto.
    + apply orb_true_iff in H as [H | H].
      * apply MAltL; auto.
      * apply MAltR; auto.
    + constructor.
    + change (@nil JsString.code_unit) with (@nil JsString.code_unit ++ []).
      constructor; [auto | constructor].
  - induction r; intros H; inversion H; subst; simpl; auto.
    + match goal with E : _ ++ _ = [] |- _ =>
        apply app_eq_nil in E as [-> ->] end.
      rewrite IHr1, IHr2; auto.
    + rewrite IHr1; auto.
    + rewrite IHr2; auto. apply orb_true_r.
    + match goal with E : _ ++ _ = [] |- _ =>
        apply app_eq_nil in E as [-> ->] end.
      auto.
Qed.

(** A non-empty word of [r*] starts with a non-empty word of [r]. *)
Lemma Matches_Star_cons (r : regex) (c : JsString.code_unit) (s : jsstring) :
  Matches (Star r) (c :: s) ->
  exists s1 s2,
    s = s1 ++ s2 /\ Matches r (c :: s1) /\ Matches (Star r) s2.
Proof.
  intros H.
  remember (Star r) as r' eqn:Er. remember (c :: s) as w eqn:Ew.
  revert Er Ew.
  induction H; intros Er Ew; try discriminate.
  injection Er as ->.
  destruct s1 as [| c1 s1].
  - simpl in Ew. apply IHMatches2; auto.
  - simpl in Ew. injection Ew as -> <-.
    exists s1, s2. auto.
Qed.

Lemma deriv_sound (c : JsString.code_unit) (r : regex) :
  forall s, Matches (deriv c r) s -> Matches r (c :: s).
Proof.
  induction r; simpl; intros s H.
  - inversion H.
  - inversion H.
  - destruct (atom_matches a c) eqn:E; inversion H; subst.
    constructor; auto.
  - destruct (set_matches negated members c) eqn:E; inversion H; subst.
    constructor; auto.
  - destruct (nullable r1) eqn:E.
    + inversion H; subst.
      * match goal with M : Matches (Seq _ _) _ |- _ =>
          inversion M; subst end.
        change (c :: s1 ++ s2) with ((c :: s1) ++ s2).
        constructor; auto.
      * change (c :: s) with ([] ++ c :: s).
        constructor; [apply nullable_Matches; auto | auto].
    + inversion H; subst.
      change (c :: s1 ++ s2) with ((c :: s1) ++ s2).
      constructor; auto.
  - inversion H; subst; [apply MAltL | apply MAltR]; auto.
  - inversion H; subst.
    change (c :: s1 ++ s2) with ((c :: s1) ++ s2).
    constructor; auto.
  - inversion H; subst.
    change (c :: s1 ++ s2) with ((c :: s1) ++ s2).
    constructor; auto.
Qed.

Lemma deriv_complete (c : JsString.code_unit) (r : regex) :
  forall s, Matches r (c :: s) -> Matches (deriv c r) s.
Proof.
  induction r; simpl; intros s H.
  - inversion H.
  - inversion H.
  - inversion H; subst.
    match goal with E : atom_matches _ _ = true |- _ => rewrite E end.
    constructor.
  - inversion H; subst.
    match goal with E : set_matches _ _ _ = true |- _ => rewrite E end.
    constructor.
  - inversion H; subst.
    match goal with
      H1 : Matches r1 ?s1, E : ?s1 ++ _ = _ |- _ =>
        destruct s1 as [| c1 s1]; simpl in E;
        [ subst; rewrite (proj2 (nullable_Matches r1) H1)
        | injection E as -> <- ]
    end.
    + apply MAltR; auto.
    + destruct (nullable r1).
      * apply MAltL. constructor; auto.
      * constructor; auto.
  - inversion H; subst; [apply MAltL | apply MAltR]; auto.
  - apply Matches_Star_cons in H as (s1 & s2 & -> & H1 & H2).
    constructor; auto.
  - inversion H; subst.
    match goal with
      H2 : Matches (Star r) ?s2, E : ?s1 ++ ?s2 = _ |- _ =>
        destruct s1 as [| c1 s1]; simpl in E;
        [ subst;
          apply Matches_Star_cons in H2 as (t1 & t2 & -> & G1 & G2)
        | injection E as -> <- ]
    end; constructor; auto.
Qed.

(** [test] accepts exactly the words of the pattern. *)
Lemma test_Matches (r : regex) (s : jsstring) :
  test r s = true <-> Matches r s.
Proof.
  revert r. induction s as [| c s IH]; intros r; simpl.
  - apply nullable_Matches.
  - rewrite IH. split; [apply deriv_sound | apply deriv_complete].
Qed.

(** Words of [[...]*]: every code unit is in the class. *)
Lemma Matches_Star_Set (n : bool) (l : list atom) (s : jsstring) :
  Matches (Star (Set_ n l)) s <-> forallb (set_matches n l) s = true.
Proof.
  split.
  - intros H. remember (Star (Set_ n l)) as r eqn:Er. revert Er.
    induction H; intros Er; try discriminate; auto.
    injection Er as ->.
    inversion H; subst. simpl.
    match goal with E : set_matches _ _ _ = true |- _ => rewrite E end.
    auto.
  - induction s as [| c s IH]; simpl; intros H.
    + constructor.
    + apply andb_true_iff in H as [H1 H2].
      change (c :: s) with ([c] ++ s).
      constructor; [constructor | ]; auto.
Qed.

(** [/^[...]+$/.test(s)]: [s] is not empty and stays inside the class. *)
Lemma test_Plus_Set (n : bool) (l : list atom) (s : jsstring) :
  test (Plus (Set_ n l)) s
  = JsString.truthy s && forallb (set_matches n l) s.
Proof.
  apply eq_true_iff_eq. rewrite test_Matches. split.
  - intros H. inversion H; subst.
    match goal with H1 : Matches (Set_ _ _) _ |- _ =>
      inversion H1; subst end.
    simpl.
    match goal with E : set_matches _ _ _ = true |- _ => rewrite E end.
    apply Matches_Star_Set; auto.
  - destruct s as [| c s]; simpl; [discriminate |].
    intros H. apply andb_true_iff in H as [H1 H2].
    change (c :: s) with ([c] ++ s).
    constructor; [constructor | apply Matches_Star_Set]; auto.
Qed.

End RegexFacts.

(** ** Validators *)

Module ValidatorFacts.
Import Regex.

Lemma remove_all_NonDigit (s : jsstring) :
  remove_all ANonDigit s = filter JsString.is_digit s.
Proof.
  unfold remove_all. apply filter_ext. intros c. simpl.
  apply negb_involutive.
Qed.

Lemma space_not_digit (c : JsString.code_unit) :
  JsString.is_space c = true -> JsString.is_digit c = false.
Proof.
  unfold JsString.is_space, JsString.is_digit. intros H.
  apply andb_false_iff.
  repeat (apply orb_true_iff in H as [H | H]);
    first
      [ apply N.eqb_eq in H; subst c;
        first [ left; reflexivity | right; reflexivity ]
      | apply andb_true_iff in H as [H _]; apply N.leb_le in H;
        right; apply N.leb_gt; lia ].
Qed.

Lemma digitCount_trimStart (s : jsstring) :
  JsString.digitCount (JsString.trimStart s) = JsString.digitCount s.
Proof.
  unfold JsString.digitCount.
  induction s as [| c s IH]; simpl; auto.
  destruct (JsString.is_space c) eqn:E; auto.
  rewrite (space_not_digit c E). auto.
Qed.

Lemma digitCount_rev (s : jsstring) :
  JsString.digitCount (rev s) = JsString.digitCount s.
Proof.
  unfold JsString.digitCount.
  induction s as [| c s IH]; simpl; auto.
  rewrite filter_app, length_app, IH. simpl.
  destruct (JsString.is_digit c); simpl; lia.
Qed.

(** Trimming removes no digit. *)
Lemma digitCount_trim (s : jsstring) :
  JsString.digitCount (JsString.trim s) = JsString.digitCount s.
Proof.
  unfold JsString.trim, JsString.trimEnd.
  rewrite digitCount_rev, digitCount_trimStart, digitCount_rev.
  apply digitCount_trimStart.
Qed.

Lemma digits_truthy (s : jsstring) :
  (0 < JsString.digitCount s)%nat -> JsString.truthy s = true.
Proof.
  destruct s; simpl; auto. unfold JsString.digitCount. simpl. lia.
Qed.

(** [Utils.isValidPhone]: only digits and the six separators, and at
    least ten digits. *)
Lemma isValidPhone_spec (phone : jsstring) :
  Utils.isValidPhone phone
  = forallb Utils.phone_char phone
    && (10 <=? JsString.digitCount phone)%nat.
Proof.
  unfold Utils.isValidPhone, Utils.phone_regex.
  rewrite RegexFacts.test_Plus_Set, remove_all_NonDigit.
  fold Utils.phone_char. fold (JsString.digitCount phone).
  destruct (JsString.truthy phone) eqn:E; auto.
  destruct phone; [| discriminate]. reflexivity.
Qed.

(** The phone check of [ContactForm.validateField]: an empty value passes
    unless it is required, any other needs ten digits. *)
Lemma validateField_phone (raw : jsstring) (req : bool) :
  fst (ContactForm.validateField (ContactForm.phoneField raw req))
  = if JsString.truthy (JsString.trim raw)
    then (10 <=? JsString.digitCount raw)%nat
    else negb req.
Proof.
  unfold ContactForm.validateField, ContactForm.phoneField.
  cbn [ContactForm.value ContactForm.name ContactForm.type
       ContactForm.required].
  change (JsString.eqb (js "tel") (js "hidden")) with false.
  change (JsString.eqb (js "phone") (js "_honey")) with false.
  change (JsString.eqb (js "phone") (js "email")) with false.
  change (JsString.eqb (js "phone") (js "phone")) with true.
  change (JsString.eqb (js "phone") (js "service")) with false.
  change (JsString.eqb (js "phone") (js "message")) with false.
  cbn [orb andb].
  rewrite remove_all_NonDigit.
  fold (JsString.digitCount (JsString.trim raw)).
  rewrite digitCount_trim.
  unfold ContactForm.fail_when.
  destruct (JsString.truthy (JsString.trim raw)); cbn [negb andb].
  - rewrite andb_false_r. cbn [andb].
    destruct (Nat.ltb_spec (JsString.digitCount raw) 10) as [L | L];
      cbn [negb fst];
      [ symmetry; apply Nat.leb_gt; lia | symmetry; apply Nat.leb_le; lia ].
  - rewrite andb_true_r. destruct req; reflexivity.
Qed.

End ValidatorFacts.

(** ** The slider *)

Module SliderFacts.
Import Slider.
Local Open Scope Z_scope.

(** Case analysis on the integer tests of the methods. *)
Ltac cmp :=
  repeat match goal with
    | |- context [?a >=? ?b] => rewrite (Z.geb_leb a b)
    | |- context [?a >? ?b] => rewrite (Z.gtb_ltb a b)
    | |- context [?a <=? ?b] => destruct (Z.leb_spec a b)
    | |- context [?a <? ?b] => destruct (Z.ltb_spec a b)
    end.

Lemma goToSlide_locked (index : Z) (s : t) :
  isAnimating s = true -> goToSlide index s = s.
Proof. unfold goToSlide. intros ->. reflexivity. Qed.

Lemma goToSlide_currentSlide (index : Z) (s : t) :
  currentSlide (goToSlide index s)
  = if isAnimating s then currentSlide s else index.
Proof. unfold goToSlide. destruct (isAnimating s); reflexivity. Qed.

Lemma goToSlide_options (index : Z) (s : t) :
  options (goToSlide index s) = options s.
Proof. unfold goToSlide. destruct (isAnimating s); reflexivity. Qed.

Lemma goToSlide_totalSlides (index : Z) (s : t) :
  totalSlides (goToSlide index s) = totalSlides s.
Proof. unfold goToSlide. destruct (isAnimating s); reflexivity. Qed.

(** [goToSlide] on the current index never changes the index. *)
Lemma goToSlide_same (s : t) :
  currentSlide (goToSlide (currentSlide s) s) = currentSlide s.
Proof.
  rewrite goToSlide_currentSlide. destruct (isAnimating s); reflexivity.
Qed.

(** The targets of [next()] and [prev()] are indices of slides. *)
Lemma nextTarget_range (s : t) :
  0 <= slidesToScroll (options s) ->
  0 <= currentSlide s < totalSlides s ->
  0 <= nextTarget s < totalSlides s.
Proof.
  unfold nextTarget. intros Hs Hc. cbv zeta. cmp.
  - destruct (infinite (options s)); lia.
  - lia.
Qed.

Lemma prevTarget_range (s : t) :
  0 <= slidesToScroll (options s) ->
  0 <= currentSlide s < totalSlides s ->
  0 <= prevTarget s < totalSlides s.
Proof.
  unfold prevTarget. intros Hs Hc. cbv zeta. cmp.
  - destruct (infinite (options s)); lia.
  - lia.
Qed.

Lemma goToSlide_Steady (n : nat) (index : Z) (s : t) :
  Steady n s -> 0 <= index < totalSlides s ->
  Steady n (goToSlide index s).
Proof.
  unfold Steady. intros (Hi & Hs & Ht & Hc) Hx.
  rewrite goToSlide_options, goToSlide_totalSlides,
    goToSlide_currentSlide.
  destruct (isAnimating s); auto.
Qed.

Lemma next_Steady (n : nat) (s : t) : Steady n s -> Steady n (next s).
Proof.
  intros H. apply goToSlide_Steady; auto.
  destruct H as (_ & Hs & _ & Hc). apply nextTarget_range; auto.
Qed.

Lemma prev_Steady (n : nat) (s : t) : Steady n s -> Steady n (prev s).
Proof.
  intros H. apply goToSlide_Steady; auto.
  destruct H as (_ & Hs & _ & Hc). apply prevTarget_range; auto.
Qed.

Lemma handleEnd_Steady (n : nat) (s : t) :
  Steady n s -> Steady n (handleEnd s).
Proof.
  intros H. unfold handleEnd.
  destruct (isDragging s); cbn [negb]; auto.
  cbv zeta.
  set (s' := set_trackCursor Grab (set_isDragging false s)).
  assert (H' : Steady n s') by exact H.
  destruct (Z.abs (currentX s' - startX s') >? swipeThreshold (options s')).
  - destruct (currentX s' - startX s' >? 0);
      [apply prev_Steady | apply next_Steady]; auto.
  - apply goToSlide_Steady; auto. apply H'.
Qed.

Lemma step_Steady (n : nat) (s : t) (op : Op) :
  navigation n op -> Steady n s -> Steady n (step s op).
Proof.
  intros Hop H. destruct op; simpl in *.
  - apply next_Steady; auto.
  - apply prev_Steady; auto.
  - apply goToSlide_Steady; auto.
    destruct H as (_ & _ & -> & _). auto.
  - exact H.
  - unfold handleMove. destruct (isDragging s); exact H.
  - apply handleEnd_Steady; auto.
  - destruct (lockTimers s); auto.
    unfold lockTimeout. cbv zeta.
    destruct H as (Hi & Hs & Ht & Hc).
    cbn [set_isAnimating set_lockTimers options infinite].
    rewrite Hi. unfold Steady. cbn. tauto.
  - destruct (restoreTimers s); auto.
  - destruct (autoplayInterval s); auto. apply next_Steady; auto.
  - unfold stopAutoplay. destruct (autoplayInterval s); exact H.
  - unfold startAutoplay. destruct (autoplayInterval s); exact H.
  - contradiction.
Qed.

Lemma run_Steady (n : nat) (ops : list Op) :
  Forall (navigation n) ops ->
  forall s, Steady n s -> Steady n (run ops s).
Proof.
  unfold run. induction 1 as [| op ops Hop _ IH]; simpl; auto.
  intros s H. apply IH. apply step_Steady; auto.
Qed.

(** How [init()] ends, for a property that [startAutoplay] keeps. *)
Lemma create_cases (P : t -> Prop) (given : Settings) (n : nat)
      (width : Z) :
  (forall s, P s -> P (startAutoplay s)) ->
  ((n = 0)%nat ->
   P (set_totalSlides (Z.of_nat n) (construct given width))) ->
  P (goToSlide 0 (set_totalSlides (Z.of_nat n) (construct given width))) ->
  P (create given n width).
Proof.
  intros Hs H0 H1. unfold create, init. cbv zeta.
  match goal with |- context [?a =? 0] => destruct (a =? 0) eqn:E end.
  - apply H0. change ((Z.of_nat n =? 0) = true) in E.
    apply Z.eqb_eq in E. lia.
  - match goal with |- context [if ?b then _ else _] => destruct b end.
    + apply Hs. exact H1.
    + exact H1.
Qed.

Lemma startAutoplay_Steady (n : nat) (s : t) :
  Steady n s -> Steady n (startAutoplay s).
Proof.
  intros H. unfold startAutoplay. destruct (autoplayInterval s); exact H.
Qed.

Lemma create_Steady (given : Settings) (n : nat) (width : Z) :
  infinite (assign defaults given) = false ->
  0 <= slidesToScroll (assign defaults given) ->
  (0 < n)%nat ->
  Steady n (create given n width).
Proof.
  intros Hi Hs Hn. apply create_cases.
  - apply startAutoplay_Steady.
  - lia.
  - apply goToSlide_Steady.
    + unfold Steady. cbn [set_totalSlides construct options totalSlides
                          currentSlide]. repeat split; auto; lia.
    + cbn [set_totalSlides totalSlides]. lia.
Qed.

(** A transition in progress has exactly one timeout pending to end it,
    and a slider at rest has none: whatever happens to a slider, a lock
    taken is a lock that will be released. *)
Lemma goToSlide_one_timer (index : Z) (s : t) :
  lockTimers s = (if isAnimating s then 1 else 0)%nat ->
  lockTimers (goToSlide index s)
  = (if isAnimating (goToSlide index s) then 1 else 0)%nat.
Proof.
  unfold goToSlide. destruct (isAnimating s) eqn:E; cbn.
  - rewrite E. auto.
  - intros ->. reflexivity.
Qed.

Lemma step_one_timer (s : t) (op : Op) :
  lockTimers s = (if isAnimating s then 1 else 0)%nat ->
  lockTimers (step s op)
  = (if isAnimating (step s op) then 1 else 0)%nat.
Proof.
  intros H. destruct op; cbn [step].
  - apply goToSlide_one_timer; auto.
  - apply goToSlide_one_timer; auto.
  - apply goToSlide_one_timer; auto.
  - exact H.
  - unfold handleMove. destruct (isDragging s); exact H.
  - unfold handleEnd. destruct (isDragging s); cbn [negb]; auto.
    cbv zeta.
    match goal with
      |- context [if ?a then (if ?b then _ else _) else _] =>
        destruct a; [destruct b |]
    end; apply goToSlide_one_timer; exact H.
  - destruct (lockTimers s) as [| n] eqn:E; [rewrite E; exact H |].
    revert H.
    destruct (isAnimating s); intros H; [| discriminate H].
    injection H as ->.
    unfold lockTimeout, handleInfiniteLoop. cbv zeta.
    cbn [set_isAnimating set_lockTimers options currentSlide totalSlides].
    destruct (infinite (options s)); [| reflexivity].
    destruct (currentSlide s >=? totalSlides s); [reflexivity |].
    destruct (currentSlide s <? 0); reflexivity.
  - destruct (restoreTimers s); auto.
  - destruct (autoplayInterval s); auto.
    apply goToSlide_one_timer; auto.
  - unfold stopAutoplay. destruct (autoplayInterval s); exact H.
  - unfold startAutoplay. destruct (autoplayInterval s); exact H.
  - unfold handleResize. cbv zeta. apply goToSlide_one_timer. exact H.
Qed.

Lemma reachable_one_timer (given : Settings) (n : nat) (width : Z)
      (ops : list Op) :
  let s := run ops (create given n width) in
  lockTimers s = (if isAnimating s then 1 else 0)%nat.
Proof.
  cbv zeta. unfold run.
  assert (H0 : lockTimers (create given n width)
               = (if isAnimating (create given n width) then 1 else 0)%nat).
  { apply (create_cases
             (fun s => lockTimers s
                       = (if isAnimating s then 1 else 0)%nat)).
    - intros s H. unfold startAutoplay.
      destruct (autoplayInterval s); exact H.
    - reflexivity.
    - apply goToSlide_one_timer. reflexivity. }
  revert H0. generalize (create given n width).
  induction ops as [| op ops IH]; intros s H; cbn [fold_left]; auto.
  apply IH. apply step_one_timer. exact H.
Qed.

End SliderFacts.

Module ResizeFacts.
Import Slider.
Local Open Scope Z_scope.

(** One step of the walk, seen through one option. *)
Lemma pick_lastGiven_step {A : Type} (given : Settings -> option A)
      (get : Options -> A) (w : Z) (o : Options) (rule : Breakpoint)
      (rest : list Breakpoint) :
  (forall o' st, get (assign o' st) = pick (given st) (get o')) ->
  pick (lastGiven given w rest) (get (applyBreakpoint w o rule))
  = pick (lastGiven given w (rule :: rest)) (get o).
Proof.
  intros Hget. simpl. unfold applyBreakpoint.
  destruct (lastGiven given w rest); simpl; auto.
  destruct (w <=? breakpoint rule); auto.
Qed.

(** Walking the rules is one [Object.assign] of the merged settings. *)
Lemma walk_merged (w : Z) (rules : list Breakpoint) :
  forall o,
    fold_left (applyBreakpoint w) rules o = assign o (merged w rules).
Proof.
  induction rules as [| rule rest IH]; intros o.
  - destruct o; reflexivity.
  - cbn [fold_left]. rewrite IH.
    unfold assign, merged.
    cbn [given_slidesToShow given_slidesToScroll given_autoplay
         given_autoplaySpeed given_infinite given_dots given_arrows
         given_draggable given_swipeThreshold given_speed given_easing
         given_pauseOnHover given_responsive].
    rewrite (pick_lastGiven_step given_slidesToShow slidesToShow w o rule rest)
      by reflexivity.
    rewrite (pick_lastGiven_step given_slidesToScroll slidesToScroll w o rule rest)
      by reflexivity.
    rewrite (pick_lastGiven_step given_autoplay autoplay w o rule rest)
      by reflexivity.
    rewrite (pick_lastGiven_step given_autoplaySpeed autoplaySpeed w o rule rest)
      by reflexivity.
    rewrite (pick_lastGiven_step given_infinite infinite w o rule rest)
      by reflexivity.
    rewrite (pick_lastGiven_step given_dots dots w o rule rest)
      by reflexivity.
    rewrite (pick_lastGiven_step given_arrows arrows w o rule rest)
      by reflexivity.
    rewrite (pick_lastGiven_step given_draggable draggable w o rule rest)
      by reflexivity.
    rewrite (pick_lastGiven_step given_swipeThreshold swipeThreshold w o rule rest)
      by reflexivity.
    rewrite (pick_lastGiven_step given_speed speed w o rule rest)
      by reflexivity.
    rewrite (pick_lastGiven_step given_easing easing w o rule rest)
      by reflexivity.
    rewrite (pick_lastGiven_step given_pauseOnHover pauseOnHover w o rule rest)
      by reflexivity.
    rewrite (pick_lastGiven_step given_responsive responsive w o rule rest)
      by reflexivity.
    reflexivity.
Qed.

(** Rules that do not match leave no trace. *)
Lemma lastGiven_matching {A : Type} (given : Settings -> option A)
      (w : Z) (rules : list Breakpoint) :
  lastGiven given w (matching w rules) = lastGiven given w rules.
Proof.
  induction rules as [| rule rest IH]; simpl; auto.
  destruct (w <=? breakpoint rule) eqn:E; simpl; rewrite ?E, IH;
    destruct (lastGiven given w rest); reflexivity.
Qed.

(** With the matching rules [front ++ [final]], what [final] gives is
    what stays. *)
Lemma lastGiven_final {A : Type} (given : Settings -> option A) (w : Z)
      (front : list Breakpoint) (final : Breakpoint) (v : A) :
  (w <=? breakpoint final) = true ->
  given (settings final) = Some v ->
  lastGiven given w (front ++ [final]) = Some v.
Proof.
  intros Hm Hg. induction front as [| r front IH]; simpl.
  - rewrite Hm. exact Hg.
  - rewrite IH. reflexivity.
Qed.

(** The walk assigns the settings of the matching rules, one after the
    other. *)
Lemma walk_matching (w : Z) (rules : list Breakpoint) :
  forall o,
    fold_left (applyBreakpoint w) rules o
    = fold_left assign (map settings (matching w rules)) o.
Proof.
  induction rules as [| rule rest IH]; intros o; [reflexivity |].
  cbn [fold_left matching filter]. unfold applyBreakpoint at 2.
  destruct (w <=? breakpoint rule); cbn [map fold_left]; apply IH.
Qed.

(** Where no rule matches the options stay as they are. *)
Lemma walk_no_match (w : Z) (rules : list Breakpoint) (o : Options) :
  matching w rules = [] ->
  fold_left (applyBreakpoint w) rules o = o.
Proof. intros H. rewrite walk_matching, H. reflexivity. Qed.

Lemma handleResize_options (w : Z) (s : t) :
  options (handleResize w s)
  = assign (options s) (merged w (responsive (options s))).
Proof.
  unfold handleResize. cbv zeta.
  rewrite SliderFacts.goToSlide_options. cbn [set_options options].
  apply walk_merged.
Qed.

End ResizeFacts.

Module DragFacts.
Import Slider.
Local Open Scope Z_scope.

Lemma run_app (ops1 ops2 : list Op) (s : t) :
  run (ops1 ++ ops2) s = run ops2 (run ops1 s).
Proof. unfold run. apply fold_left_app. Qed.

Lemma last_cons_default {A : Type} (l : list A) :
  forall a d d', last (a :: l) d = last (a :: l) d'.
Proof.
  induction l as [| b l IH]; intros a d d'; [reflexivity |].
  change (last (b :: l) d = last (b :: l) d'). apply IH.
Qed.

(** Pointer moves while dragging touch the closure's [currentX] and the
    track, and nothing else that [handleEnd] reads. *)
Lemma moves_dragging (moves : list Z) :
  forall s,
    isDragging s = true ->
    let s' := run (map DragMove moves) s in
    isDragging s' = true
    /\ startX s' = startX s
    /\ currentX s' = last moves (currentX s)
    /\ currentSlide s' = currentSlide s
    /\ totalSlides s' = totalSlides s
    /\ options s' = options s
    /\ isAnimating s' = isAnimating s.
Proof.
  unfold run.
  induction moves as [| x moves IH]; intros s Hd; cbn [map fold_left].
  - repeat split; auto.
  - set (s1 := step s (DragMove x)).
    assert (H1 : isDragging s1 = true /\ startX s1 = startX s
                 /\ currentX s1 = x /\ currentSlide s1 = currentSlide s
                 /\ totalSlides s1 = totalSlides s
                 /\ options s1 = options s
                 /\ isAnimating s1 = isAnimating s).
    { subst s1. simpl. unfold handleMove. rewrite Hd. cbn.
      repeat split; auto. }
    destruct H1 as (D1 & X1 & C1 & I1 & T1 & O1 & A1).
    destruct (IH s1 D1) as (D & X & C & I & T & O & A).
    rewrite D, X, C, I, T, O, A, X1, C1, I1, T1, O1, A1.
    repeat split; auto.
    destruct moves as [| z moves]; [reflexivity |].
    change (last (x :: z :: moves) (currentX s))
      with (last (z :: moves) (currentX s)).
    apply last_cons_default.
Qed.

(** The difference [handleEnd] computes at the end of a gesture: the
    pointer's own delta once the pointer has moved, and otherwise the
    distance from a [currentX] left over from before the gesture. *)
Lemma gesture_diff (start : Z) (moves : list Z) (s : t) :
  let s' := run (DragStart start :: map DragMove moves) s in
  isDragging s' = true
  /\ currentX s' - startX s'
     = match moves with
       | [] => currentX s - start
       | _ :: _ => pointerDelta start moves
       end
  /\ currentSlide s' = currentSlide s.
Proof.
  cbv zeta. change (run (DragStart start :: map DragMove moves) s)
    with (run (map DragMove moves) (handleStart start s)).
  destruct (moves_dragging moves (handleStart start s) eq_refl)
    as (D & X & C & I & _).
  rewrite D, X, C, I. cbn.
  repeat split; auto.
  destruct moves as [| x moves]; auto.
  unfold pointerDelta, releasePosition.
  f_equal. apply last_cons_default.
Qed.

(** What [handleEnd] does with the difference it computes. *)
Lemma handleEnd_cases (s : t) :
  isDragging s = true ->
  let diff := currentX s - startX s in
  let released := set_trackCursor Grab (set_isDragging false s) in
  handleEnd s
  = if Z.abs diff >? swipeThreshold (options s)
    then if diff >? 0 then prev released else next released
    else goToSlide (currentSlide s) released.
Proof. intros H. unfold handleEnd. rewrite H. reflexivity. Qed.

(** A release whose computed difference stays within the threshold keeps
    the index. *)
Lemma handleEnd_within (s : t) :
  Z.abs (currentX s - startX s) <= swipeThreshold (options s) ->
  currentSlide (handleEnd s) = currentSlide s.
Proof.
  intros H. unfold handleEnd.
  destruct (isDragging s); cbn [negb]; auto.
  cbv zeta. cbn [set_isDragging set_trackCursor currentX startX options].
  rewrite Z.gtb_ltb.
  destruct (Z.ltb_spec (swipeThreshold (options s))
              (Z.abs (currentX s - startX s))) as [L | L]; [lia |].
  rewrite SliderFacts.goToSlide_currentSlide.
  destruct (isAnimating _); reflexivity.
Qed.

(** Once the pointer has moved, a gesture whose pointer delta stays
    within the threshold keeps the index. *)
Lemma moved_gesture_within (start x : Z) (moves : list Z) (s : t) :
  Z.abs (pointerDelta start (x :: moves)) <= swipeThreshold (options s) ->
  currentSlide (run (gesture start (x :: moves)) s) = currentSlide s.
Proof.
  intros H. unfold gesture. rewrite app_comm_cons, run_app.
  pose proof (gesture_diff start (x :: moves) s) as G. cbv zeta in G.
  destruct G as (_ & X & I).
  destruct (moves_dragging (x :: moves) (handleStart start s) eq_refl)
    as (_ & _ & _ & _ & _ & O & _).
  change (run (map DragMove (x :: moves)) (handleStart start s))
    with (run (DragStart start :: map DragMove (x :: moves)) s) in O.
  set (s' := run (DragStart start :: map DragMove (x :: moves)) s) in *.
  change (run [DragEnd] s') with (handleEnd s').
  rewrite handleEnd_within.
  - exact I.
  - rewrite X, O. exact H.
Qed.

End DragFacts.

Module StorageFacts.
Import Utils.

Section Storage.
Variables Browser Error Value : Type.
Variable null : Value.
Variable getItem :
  jsstring -> Browser -> (Error + option jsstring) * Browser.
Variable setItem :
  jsstring -> jsstring -> Browser -> (Error + unit) * Browser.
Variable JSON_parse : jsstring -> Error + Value.
Variable JSON_stringify : Value -> Error + jsstring.

(** [getStorage] returns whatever the browser does. *)
Lemma getStorage_returns (key : jsstring) (w : World Browser Error) :
  exists v w', run (getStorage null getItem JSON_parse key) w = (inr v, w').
Proof.
  unfold run, getStorage. cbn.
  destruct (getItem key (browser w)) as [[e | [text |]] b]; cbn;
    eauto.
  destruct (JsString.truthy text); cbn; eauto.
  destruct (JSON_parse text); cbn; eauto.
Qed.

Lemma getStorage_getItem_throws (key : jsstring)
      (w : World Browser Error) (e : Error) (b : Browser) :
  getItem key (browser w) = (inl e, b) ->
  run (getStorage null getItem JSON_parse key) w
  = (inr null,
     mkWorld b (console w ++ [(js "Error getting storage:", e)])).
Proof.
  intros H. unfold run, getStorage. cbn. rewrite H. reflexivity.
Qed.

(** A stored text that does not parse is reported and read as [null]. *)
Lemma getStorage_parse_throws (key text : jsstring)
      (w : World Browser Error) (e : Error) (b : Browser) :
  getItem key (browser w) = (inr (Some text), b) ->
  JsString.truthy text = true ->
  JSON_parse text = inl e ->
  run (getStorage null getItem JSON_parse key) w
  = (inr null,
     mkWorld b (console w ++ [(js "Error getting storage:", e)])).
Proof.
  intros H T P. unfold run, getStorage. cbn. rewrite H. cbn.
  rewrite T. cbn. rewrite P. reflexivity.
Qed.

Lemma getStorage_found (key text : jsstring)
      (w : World Browser Error) (v : Value) (b : Browser) :
  getItem key (browser w) = (inr (Some text), b) ->
  JsString.truthy text = true ->
  JSON_parse text = inr v ->
  run (getStorage null getItem JSON_parse key) w
  = (inr v, mkWorld b (console w)).
Proof.
  intros H T P. unfold run, getStorage. cbn. rewrite H. cbn.
  rewrite T. cbn. rewrite P. reflexivity.
Qed.

(** [setStorage] returns whatever the browser does. *)
Lemma setStorage_returns (key : jsstring) (value : Value)
      (w : World Browser Error) :
  exists w', run (setStorage setItem JSON_stringify key value) w
             = (inr tt, w').
Proof.
  unfold run, setStorage. cbn.
  destruct (JSON_stringify value) as [e | text]; cbn; eauto.
  destruct (setItem key text (browser w)) as [[e | []] b]; cbn; eauto.
Qed.

Lemma setStorage_setItem_throws (key text : jsstring) (value : Value)
      (w : World Browser Error) (e : Error) (b : Browser) :
  JSON_stringify value = inr text ->
  setItem key text (browser w) = (inl e, b) ->
  run (setStorage setItem JSON_stringify key value) w
  = (inr tt,
     mkWorld b (console w ++ [(js "Error setting storage:", e)])).
Proof.
  intros S H. unfold run, setStorage. cbn. rewrite S. cbn.
  rewrite H. reflexivity.
Qed.

Lemma setStorage_stored (key text : jsstring) (value : Value)
      (w : World Browser Error) (b : Browser) :
  JSON_stringify value = inr text ->
  setItem key text (browser w) = (inr tt, b) ->
  run (setStorage setItem JSON_stringify key value) w
  = (inr tt, mkWorld b (console w)).
Proof.
  intros S H. unfold run, setStorage. cbn. rewrite S. cbn.
  rewrite H. reflexivity.
Qed.

End Storage.

End StorageFacts.

(* ===================================================================== *)
(** * The claims *)
(* ===================================================================== *)

Section Claims.
Import Slider.
Local Open Scope Z_scope.

(** C1. A slider created with infinite mode disabled, a positive number
    of slides and a non-negative [slidesToScroll] keeps [currentSlide]
    within [[0, slideCount)] through every sequence of calls of
    [next()], [prev()], [goToSlide(i)] with [i] an index of a slide,
    pointer events, timeouts and autoplay ticks. *)
Theorem currentSlide_stays_in_range
        (given : Settings) (slideCount : nat) (width : Z)
        (ops : list Op) :
  infinite (assign defaults given) = false ->
  0 <= slidesToScroll (assign defaults given) ->
  (0 < slideCount)%nat ->
  Forall (navigation slideCount) ops ->
  0 <= currentSlide (run ops (create given slideCount width))
    < Z.of_nat slideCount.
Proof.
  intros Hi Hs Hn Hops.
  pose proof (SliderFacts.create_Steady given slideCount width Hi Hs Hn)
    as H0.
  destruct (SliderFacts.run_Steady slideCount ops Hops _ H0)
    as (_ & _ & Ht & Hc).
  rewrite <- Ht. exact Hc.
Qed.

Lemma currentSlide_stays_in_range_witness :
  0 <= currentSlide
         (run [LockTimeout; Next; LockTimeout; Next; LockTimeout; Next;
               DragStart 10; DragMove 200; DragEnd; LockTimeout;
               GoTo 2; Prev]
              (create (withInfinite false) 3 400))
    < Z.of_nat 3.
Proof.
  apply (currentSlide_stays_in_range (withInfinite false) 3 400).
  - reflexivity.
  - simpl. lia.
  - lia.
  - repeat constructor; simpl; lia.
Defined.

(** C2, as the code has it. On a resize every matching rule is applied to
    the options, in the order of the array: with [front ++ [final]] the
    matching rules, the options end as those of [final] assigned over
    what the rules of [front] left, so the last matching rule wins where
    several give an option. [currentSlide] is unchanged, and the track is
    put at it unless a transition is in progress. *)
Theorem resize_applies_matching_rules_in_order
        (windowWidth : Z) (s : t) (front : list Breakpoint)
        (final : Breakpoint) :
  matching windowWidth (responsive (options s)) = front ++ [final] ->
  options (handleResize windowWidth s)
  = assign (fold_left assign (map settings front) (options s))
      (settings final)
  /\ currentSlide (handleResize windowWidth s) = currentSlide s
  /\ trackTransform (handleResize windowWidth s)
     = (if isAnimating s then trackTransform s
        else - currentSlide s * slideWidth s).
Proof.
  intros Hm. split; [| split].
  - unfold handleResize. cbv zeta.
    rewrite SliderFacts.goToSlide_options. cbn [set_options options].
    rewrite ResizeFacts.walk_matching, Hm, map_app, fold_left_app.
    reflexivity.
  - unfold handleResize. cbv zeta.
    rewrite SliderFacts.goToSlide_currentSlide.
    destruct (isAnimating _); reflexivity.
  - unfold handleResize, goToSlide. cbv zeta.
    cbn [set_options isAnimating].
    destruct (isAnimating s); reflexivity.
Qed.

Lemma resize_applies_matching_rules_in_order_witness :
  options (handleResize 500 responsiveSlider)
  = assign (fold_left assign (map settings [rule768])
              (options responsiveSlider))
      (settings rule1024)
  /\ currentSlide (handleResize 500 responsiveSlider)
     = currentSlide responsiveSlider
  /\ trackTransform (handleResize 500 responsiveSlider)
     = (if isAnimating responsiveSlider
        then trackTransform responsiveSlider
        else - currentSlide responsiveSlider
             * slideWidth responsiveSlider).
Proof.
  apply (resize_applies_matching_rules_in_order 500 responsiveSlider
           [rule768] rule1024).
  reflexivity.
Defined.

(** C2 as stated fails: at width 500 both rules match, the one with the
    lowest threshold is [rule768], and the options after the resize are
    not those it gives: [slidesToShow] is the [2] of [rule1024]. *)
Lemma resize_lowest_rule_does_not_win :
  matching 500 (responsive (options responsiveSlider))
  = [rule768; rule1024]
  /\ breakpoint rule768 < breakpoint rule1024
  /\ options (handleResize 500 responsiveSlider)
     <> assign (options responsiveSlider) (settings rule768)
  /\ slidesToShow (options (handleResize 500 responsiveSlider)) = 2
  /\ slidesToShow (assign (options responsiveSlider) (settings rule768))
     = 1.
Proof.
  repeat split; try reflexivity.
  intros E. apply (f_equal slidesToShow) in E. discriminate E.
Qed.

(** C3. On a slider that has slides, with a non-negative
    [slidesToScroll] of any size. The targets: in infinite mode [next()]
    targets slide [0] whenever [currentSlide + slidesToScroll] reaches
    [totalSlides] and [prev()] targets the last slide whenever
    [currentSlide - slidesToScroll] falls below [0]; without it they clamp
    to the last and the first slide; short of the ends they move by
    [slidesToScroll]. What [next()] and [prev()] do with the target: at
    rest they put [currentSlide] on it, take the lock and dispatch a
    [slideChange] for it; during a transition they change nothing. So
    without infinite mode [next()] on the last slide and [prev()] on the
    first leave [currentSlide] as it is. *)
Theorem next_prev_wrap_or_clamp (s : t) :
  0 <= slidesToScroll (options s) ->
  0 < totalSlides s ->
  let cur := currentSlide s in
  let k := slidesToScroll (options s) in
  let n := totalSlides s in
  (infinite (options s) = true -> cur + k >= n -> nextTarget s = 0)
  /\ (infinite (options s) = true -> cur - k < 0 ->
      prevTarget s = n - 1)
  /\ (infinite (options s) = false -> cur + k >= n ->
      nextTarget s = n - 1)
  /\ (infinite (options s) = false -> cur - k < 0 -> prevTarget s = 0)
  /\ (cur + k < n -> nextTarget s = cur + k)
  /\ (0 <= cur - k -> prevTarget s = cur - k)
  /\ currentSlide (next s) = (if isAnimating s then cur else nextTarget s)
  /\ currentSlide (prev s) = (if isAnimating s then cur else prevTarget s)
  /\ (isAnimating s = false ->
      isAnimating (next s) = true
      /\ dispatched (next s) = dispatched s ++ [nextTarget s]
      /\ trackTransform (next s) = - nextTarget s * slideWidth s
      /\ isAnimating (prev s) = true
      /\ dispatched (prev s) = dispatched s ++ [prevTarget s]
      /\ trackTransform (prev s) = - prevTarget s * slideWidth s)
  /\ (isAnimating s = true -> next s = s /\ prev s = s)
  /\ (infinite (options s) = false -> cur = n - 1 ->
      nextTarget s = cur /\ currentSlide (next s) = cur)
  /\ (infinite (options s) = false -> cur = 0 ->
      prevTarget s = cur /\ currentSlide (prev s) = cur).
Proof.
  intros Hk Hn cur k n. subst cur k n.
  assert (Hc : forall i, currentSlide (goToSlide i s)
                         = if isAnimating s then currentSlide s else i)
    by (intros i; apply SliderFacts.goToSlide_currentSlide).
  assert (Hrest : forall i, isAnimating s = false ->
                            isAnimating (goToSlide i s) = true
                            /\ dispatched (goToSlide i s)
                               = dispatched s ++ [i]
                            /\ trackTransform (goToSlide i s)
                               = - i * slideWidth s).
  { intros i Ha. unfold goToSlide. rewrite Ha. repeat split. }
  assert (Hlock : forall i, isAnimating s = true -> goToSlide i s = s)
    by (intros i; apply SliderFacts.goToSlide_locked).
  unfold next, prev. rewrite !Hc.
  assert (T : (infinite (options s) = true ->
               currentSlide s + slidesToScroll (options s) >= totalSlides s ->
               nextTarget s = 0)
              /\ (infinite (options s) = true ->
                  currentSlide s - slidesToScroll (options s) < 0 ->
                  prevTarget s = totalSlides s - 1)
              /\ (infinite (options s) = false ->
                  currentSlide s + slidesToScroll (options s)
                  >= totalSlides s ->
                  nextTarget s = totalSlides s - 1)
              /\ (infinite (options s) = false ->
                  currentSlide s - slidesToScroll (options s) < 0 ->
                  prevTarget s = 0)
              /\ (currentSlide s + slidesToScroll (options s)
                  < totalSlides s ->
                  nextTarget s
                  = currentSlide s + slidesToScroll (options s))
              /\ (0 <= currentSlide s - slidesToScroll (options s) ->
                  prevTarget s
                  = currentSlide s - slidesToScroll (options s))
              /\ (infinite (options s) = false ->
                  currentSlide s = totalSlides s - 1 ->
                  nextTarget s = currentSlide s)
              /\ (infinite (options s) = false -> currentSlide s = 0 ->
                  prevTarget s = currentSlide s)).
  { unfold nextTarget, prevTarget. cbv zeta. rewrite Z.geb_leb.
    destruct (Z.leb_spec (totalSlides s)
                (currentSlide s + slidesToScroll (options s)));
      destruct (Z.ltb_spec
                  (currentSlide s - slidesToScroll (options s)) 0);
      destruct (infinite (options s));
      repeat split; intros; try discriminate; lia. }
  destruct T as (T1 & T2 & T3 & T4 & T5 & T6 & T7 & T8).
  split; [exact T1 |]. split; [exact T2 |]. split; [exact T3 |].
  split; [exact T4 |]. split; [exact T5 |]. split; [exact T6 |].
  split; [reflexivity |]. split; [reflexivity |].
  split; [| split; [| split]].
  - intros Ha.
    destruct (Hrest (nextTarget s) Ha) as (A1 & A2 & A3).
    destruct (Hrest (prevTarget s) Ha) as (B1 & B2 & B3).
    repeat split; assumption.
  - intros Ha. split; apply Hlock; exact Ha.
  - intros Hi Hl. split; [exact (T7 Hi Hl) |].
    rewrite (T7 Hi Hl). destruct (isAnimating s); reflexivity.
  - intros Hi Hl. split; [exact (T8 Hi Hl) |].
    rewrite (T8 Hi Hl). destruct (isAnimating s); reflexivity.
Qed.

Lemma next_prev_wrap_or_clamp_witness :
  (* infinite mode, five slides, step two: past the end from slide 3 and
     from slide 4, before the start from slide 0 and from slide 1 *)
  (nextTarget (SliderEnds.restingAt true 3) = 0
   /\ currentSlide (next (SliderEnds.restingAt true 4)) = 0
   /\ prevTarget (SliderEnds.restingAt true 1) = 4
   /\ currentSlide (prev (SliderEnds.restingAt true 0)) = 4)
  (* without it: clamped from slide 3, unchanged on the last slide;
     clamped from slide 1, unchanged on the first *)
  /\ (nextTarget (SliderEnds.restingAt false 3) = 4
      /\ currentSlide (next (SliderEnds.restingAt false 4))
         = currentSlide (SliderEnds.restingAt false 4)
      /\ prevTarget (SliderEnds.restingAt false 1) = 0
      /\ currentSlide (prev (SliderEnds.restingAt false 0))
         = currentSlide (SliderEnds.restingAt false 0))
  (* short of the ends *)
  /\ (currentSlide (next (SliderEnds.restingAt false 1)) = 3
      /\ currentSlide (prev (SliderEnds.restingAt true 3)) = 1
      /\ dispatched (next (SliderEnds.restingAt false 1))
         = dispatched (SliderEnds.restingAt false 1) ++ [3]).
Proof.
  assert (K : forall loop i,
             0 <= i < 5 ->
             0 <= slidesToScroll (options (SliderEnds.restingAt loop i))
             /\ 0 < totalSlides (SliderEnds.restingAt loop i)
             /\ isAnimating (SliderEnds.restingAt loop i) = false
             /\ infinite (options (SliderEnds.restingAt loop i)) = loop
             /\ currentSlide (SliderEnds.restingAt loop i) = i
             /\ slidesToScroll (options (SliderEnds.restingAt loop i)) = 2
             /\ totalSlides (SliderEnds.restingAt loop i) = 5).
  { intros loop i Hi.
    assert (E : i = 0 \/ i = 1 \/ i = 2 \/ i = 3 \/ i = 4) by lia.
    destruct E as [-> | [-> | [-> | [-> | ->]]]]; destruct loop;
      repeat split; try reflexivity; vm_compute; discriminate. }
  assert (W : forall loop i, 0 <= i < 5 ->
              let s := SliderEnds.restingAt loop i in
              (loop = true -> i + 2 >= 5 -> nextTarget s = 0)
              /\ (loop = true -> i - 2 < 0 -> prevTarget s = 4)
              /\ (loop = false -> i + 2 >= 5 -> nextTarget s = 4)
              /\ (loop = false -> i - 2 < 0 -> prevTarget s = 0)
              /\ (i + 2 < 5 -> nextTarget s = i + 2)
              /\ (0 <= i - 2 -> prevTarget s = i - 2)
              /\ currentSlide (next s) = nextTarget s
              /\ currentSlide (prev s) = prevTarget s
              /\ dispatched (next s) = dispatched s ++ [nextTarget s]
              /\ (loop = false -> i = 4 -> currentSlide (next s) = i)
              /\ (loop = false -> i = 0 -> currentSlide (prev s) = i)).
  { intros loop i Hi. cbv zeta.
    destruct (K loop i Hi) as (K1 & K2 & K3 & K4 & K5 & K6 & K7).
    pose proof (next_prev_wrap_or_clamp (SliderEnds.restingAt loop i) K1 K2)
      as T.
    cbv zeta in T. rewrite K3, K4, K5, K6, K7 in T.
    destruct T as (T1 & T2 & T3 & T4 & T5 & T6 & T7 & T8 & T9 & _ & T11
                   & T12).
    destruct (T9 eq_refl) as (_ & D & _).
    repeat split; auto.
    - intros Hl Hx. apply T11; [exact Hl | lia].
    - intros Hl Hx. apply T12; [exact Hl | lia]. }
  pose proof (W true 3 ltac:(lia)) as A3. pose proof (W true 4 ltac:(lia)) as A4.
  pose proof (W true 1 ltac:(lia)) as A1. pose proof (W true 0 ltac:(lia)) as A0.
  pose proof (W false 3 ltac:(lia)) as B3.
  pose proof (W false 4 ltac:(lia)) as B4.
  pose proof (W false 1 ltac:(lia)) as B1.
  pose proof (W false 0 ltac:(lia)) as B0.
  cbv zeta in *.
  destruct A3 as (A31 & A32 & A33 & A34 & A35 & A36 & A37 & A38 & A39 & _).
  destruct A4 as (A41 & _ & _ & _ & _ & _ & A47 & _).
  destruct A1 as (_ & A12 & _).
  destruct A0 as (_ & A02 & _ & _ & _ & _ & _ & A08 & _).
  destruct B3 as (_ & _ & B33 & _).
  destruct B4 as (_ & _ & _ & _ & _ & _ & _ & _ & _ & B410 & _).
  destruct B1 as (_ & _ & _ & B14 & B15 & _ & B17 & _ & B19 & _).
  destruct B0 as (_ & _ & _ & _ & _ & _ & _ & _ & _ & _ & B011).
  assert (C : forall loop i, 0 <= i < 5 ->
              currentSlide (SliderEnds.restingAt loop i) = i)
    by (intros loop i Hi; apply (K loop i Hi)).
  repeat match goal with |- _ /\ _ => split end.
  - apply A31; [reflexivity | lia].
  - rewrite A47. apply A41; [reflexivity | lia].
  - apply A12; [reflexivity | lia].
  - rewrite A08. apply A02; [reflexivity | lia].
  - apply B33; [reflexivity | lia].
  - rewrite C by lia. apply B410; reflexivity.
  - apply B14; [reflexivity | lia].
  - rewrite C by lia. apply B011; reflexivity.
  - rewrite B17. apply B15. lia.
  - rewrite A38. apply A36. lia.
  - rewrite B19, B15 by lia. reflexivity.
Defined.

(** C4, at the input where the code departs from it. On a fresh slider
    at slide [0] the pointer goes down at [500] and is released without
    having moved: the pointer delta is [0], within the threshold of
    [50], and yet the release runs [next()] and the slider is on slide
    [1]. [handleEnd] subtracts [startX] from a [currentX] that only
    [handleMove] writes, here still the [0] it was initialised with. *)
Theorem tap_release_runs_next :
  let s := freshSlider in
  let s' := run (gesture 500 []) s in
  pointerDelta 500 [] = 0
  /\ Z.abs (pointerDelta 500 []) <= swipeThreshold (options s)
  /\ isAnimating s = false
  /\ currentSlide s = 0
  /\ currentSlide s' = 1
  /\ s' = next (set_trackCursor Grab
                  (set_isDragging false (handleStart 500 s))).
Proof. cbv zeta. repeat split; try reflexivity. simpl. lia. Qed.

(** C5. While [isAnimating] is set, [goToSlide(index)] returns the slider
    as it was, for every [index]: no field changes, no [slideChange] is
    dispatched, no timeout is scheduled, and when the lock is released
    later nothing of the call is left to run. *)
Theorem goToSlide_dropped_while_animating (index : Z) (s : t) :
  isAnimating s = true ->
  goToSlide index s = s
  /\ dispatched (goToSlide index s) = dispatched s
  /\ lockTimers (goToSlide index s) = lockTimers s
  /\ step (goToSlide index s) LockTimeout = step s LockTimeout.
Proof.
  intros H. rewrite (SliderFacts.goToSlide_locked index s H).
  repeat split.
Qed.

Lemma goToSlide_dropped_while_animating_witness :
  let s := create noSettings 5 400 in
  goToSlide 3 s = s
  /\ dispatched (goToSlide 3 s) = dispatched s
  /\ lockTimers (goToSlide 3 s) = lockTimers s
  /\ step (goToSlide 3 s) LockTimeout = step s LockTimeout.
Proof.
  apply (goToSlide_dropped_while_animating 3 (create noSettings 5 400)).
  reflexivity.
Defined.




End Claims.

Section ValidatorClaims.
Import ContactForm.

(** C7. Both email checks, [Utils.isValidEmail] and the one of
    [ContactForm.validateField], accept [user@example.com] and reject
    [user@example] and [user.example.com]. *)
Theorem email_validators_examples :
  Utils.isValidEmail (js "user@example.com") = true
  /\ Utils.isValidEmail (js "user@example") = false
  /\ Utils.isValidEmail (js "user.example.com") = false
  /\ (forall req,
        fst (validateField (emailField (js "user@example.com") req))
        = true)
  /\ (forall req,
        fst (validateField (emailField (js "user@example") req))
        = false)
  /\ (forall req,
        fst (validateField (emailField (js "user.example.com") req))
        = false).
Proof.
  repeat split; try (intros []); vm_compute; reflexivity.
Qed.

(** C8, as the code has it. A string with exactly nine digits fails both
    phone checks. A
    string with exactly ten digits passes the check of
    [ContactForm.validateField] whatever else it contains, and passes
    [Utils.isValidPhone] exactly when what separates its digits is
    whitespace, [-], [+], [(] or [)]. In particular [123-456-7890] is
    valid and [12345678] is not, for both. *)
Theorem phone_validators_digit_count (nine ten : jsstring) (req : bool) :
  JsString.digitCount nine = 9%nat ->
  JsString.digitCount ten = 10%nat ->
  Utils.isValidPhone nine = false
  /\ fst (validateField (phoneField nine req)) = false
  /\ fst (validateField (phoneField ten req)) = true
  /\ Utils.isValidPhone ten = forallb Utils.phone_char ten
  /\ Utils.isValidPhone (js "123-456-7890") = true
  /\ Utils.isValidPhone (js "12345678") = false
  /\ fst (validateField (phoneField (js "123-456-7890") req)) = true
  /\ fst (validateField (phoneField (js "12345678") req)) = false.
Proof.
  intros H9 H10.
  assert (T9 : JsString.truthy (JsString.trim nine) = true).
  { apply ValidatorFacts.digits_truthy.
    rewrite ValidatorFacts.digitCount_trim. lia. }
  assert (T10 : JsString.truthy (JsString.trim ten) = true).
  { apply ValidatorFacts.digits_truthy.
    rewrite ValidatorFacts.digitCount_trim. lia. }
  rewrite !ValidatorFacts.validateField_phone, T9, T10.
  rewrite !ValidatorFacts.isValidPhone_spec, H9, H10.
  repeat split; try reflexivity.
  - apply andb_false_r.
  - apply andb_true_r.
Qed.

Lemma phone_validators_digit_count_witness :
  Utils.isValidPhone (js "123 456 789") = false
  /\ fst (validateField (phoneField (js "123 456 789") true)) = false
  /\ fst (validateField (phoneField (js "(123) 456-7890") true)) = true
  /\ Utils.isValidPhone (js "(123) 456-7890")
     = forallb Utils.phone_char (js "(123) 456-7890")
  /\ Utils.isValidPhone (js "123-456-7890") = true
  /\ Utils.isValidPhone (js "12345678") = false
  /\ fst (validateField (phoneField (js "123-456-7890") true)) = true
  /\ fst (validateField (phoneField (js "12345678") true)) = false.
Proof.
  apply (phone_validators_digit_count
           (js "123 456 789") (js "(123) 456-7890") true);
    reflexivity.
Defined.

(** C8 as stated fails for [Utils.isValidPhone], the check that [main.js]
    runs on every [tel] field: [123.456.7890] has ten digits,
    separated by full stops, and is rejected, since a full stop is not in
    the character class of the pattern. The check of the contact form
    accepts it. *)
Lemma isValidPhone_rejects_dotted_number :
  JsString.digitCount (js "123.456.7890") = 10%nat
  /\ Utils.isValidPhone (js "123.456.7890") = false
  /\ forallb Utils.phone_char (js "123.456.7890") = false
  /\ fst (validateField (phoneField (js "123.456.7890") true)) = true.
Proof. repeat split; vm_compute; reflexivity. Qed.

(** C10. The two phone checks differ. The one of
    [ContactForm.validateField] accepts every value with at least ten
    digits, whatever its other characters; [Utils.isValidPhone] accepts
    a string exactly when it has at least ten digits and each of its
    characters is a digit, whitespace, [-], [+], [(] or [)]. On
    [1234567890a] the first answers [true] and the second [false]. *)
Theorem phone_validators_differ :
  (exists phone req,
      Utils.isValidPhone phone
      <> fst (validateField (phoneField phone req)))
  /\ (forall phone req,
        (10 <=? JsString.digitCount phone)%nat = true ->
        fst (validateField (phoneField phone req)) = true)
  /\ (forall phone,
        Utils.isValidPhone phone
        = forallb Utils.phone_char phone
          && (10 <=? JsString.digitCount phone)%nat)
  /\ (forall c,
        Utils.phone_char c
        = (JsString.is_digit c || JsString.is_space c
           || N.eqb c (JsString.of_ascii "-")
           || N.eqb c (JsString.of_ascii "+")
           || N.eqb c (JsString.of_ascii "(")
           || N.eqb c (JsString.of_ascii ")")))
  /\ (forall req,
        fst (validateField (phoneField (js "1234567890a") req)) = true)
  /\ Utils.isValidPhone (js "1234567890a") = false.
Proof.
  split; [| split; [| split; [| split; [| split]]]].
  - exists (js "1234567890a"), true. vm_compute. discriminate.
  - intros phone req H.
    rewrite ValidatorFacts.validateField_phone, H.
    rewrite ValidatorFacts.digits_truthy; auto.
    rewrite ValidatorFacts.digitCount_trim.
    apply Nat.leb_le in H. lia.
  - apply ValidatorFacts.isValidPhone_spec.
  - intros c. unfold Utils.phone_char, Regex.set_matches, Utils.phone_chars.
    cbn [existsb Regex.atom_matches xorb].
    rewrite orb_false_r, !orb_assoc. reflexivity.
  - intros []; vm_compute; reflexivity.
  - vm_compute. reflexivity.
Qed.

End ValidatorClaims.

Section StorageClaims.
Import Utils.

(** C9. When [localStorage.getItem] throws, [getStorage] returns [null];
    when [localStorage.setItem] throws, [setStorage] returns normally.
    Neither lets the exception through, and each leaves the world as the
    failed operation left it but for one line on the console. *)
Theorem storage_failure_is_caught
        (Browser Error Value : Type) (null : Value)
        (getItem : jsstring -> Browser ->
                   (Error + option jsstring) * Browser)
        (setItem : jsstring -> jsstring -> Browser ->
                   (Error + unit) * Browser)
        (JSON_parse : jsstring -> Error + Value)
        (JSON_stringify : Value -> Error + jsstring)
        (key text : jsstring) (value : Value) (w : World Browser Error)
        (eGet eSet : Error) (bGet bSet : Browser) :
  getItem key (browser w) = (inl eGet, bGet) ->
  JSON_stringify value = inr text ->
  setItem key text (browser w) = (inl eSet, bSet) ->
  run (getStorage null getItem JSON_parse key) w
  = (inr null,
     mkWorld bGet (console w ++ [(js "Error getting storage:", eGet)]))
  /\ run (setStorage setItem JSON_stringify key value) w
     = (inr tt,
        mkWorld bSet
          (console w ++ [(js "Error setting storage:", eSet)])).
Proof.
  intros Hg Hs Hp. split.
  - apply StorageFacts.getStorage_getItem_throws; auto.
  - apply StorageFacts.setStorage_setItem_throws with (text := text);
      auto.
Qed.

Lemma storage_failure_is_caught_witness :
  run (getStorage Blocked.null Blocked.getItem Blocked.JSON_parse
         (js "theme")) Blocked.world
  = (inr Blocked.null,
     mkWorld tt [(js "Error getting storage:", "SecurityError"%string)])
  /\ run (setStorage Blocked.setItem Blocked.JSON_stringify
            (js "theme") (js "dark")) Blocked.world
     = (inr tt,
        mkWorld tt
          [(js "Error setting storage:", "SecurityError"%string)]).
Proof.
  apply (storage_failure_is_caught Blocked.Browser Blocked.Error
           Blocked.Value Blocked.null Blocked.getItem Blocked.setItem
           Blocked.JSON_parse Blocked.JSON_stringify
           (js "theme") (js "dark") (js "dark") Blocked.world
           "SecurityError"%string "SecurityError"%string tt tt);
    reflexivity.
Defined.

End StorageClaims.

(* ===================================================================== *)
(** * Further properties of the slider *)
(* ===================================================================== *)

Module SliderRunFacts.
Import Slider SliderRun.
Local Open Scope Z_scope.

Lemma goToSlide_Ranged (n : nat) (index : Z) (s : t) :
  Ranged n s -> 0 <= index < totalSlides s -> Ranged n (goToSlide index s).
Proof.
  unfold Ranged. intros (Hs & Ht & Hc) Hx.
  rewrite SliderFacts.goToSlide_options, SliderFacts.goToSlide_totalSlides,
    SliderFacts.goToSlide_currentSlide.
  destruct (isAnimating s); auto.
Qed.

Lemma goToSlide_NeverJumped (index : Z) (s : t) :
  NeverJumped s -> NeverJumped (goToSlide index s).
Proof.
  unfold NeverJumped, goToSlide. destruct (isAnimating s); auto.
Qed.

(** With the index on a slide, the end of a transition only releases the
    lock. *)
Lemma lockTimeout_in_range (s : t) :
  0 <= currentSlide s < totalSlides s ->
  lockTimeout s = set_isAnimating false s.
Proof.
  intros H. unfold lockTimeout, handleInfiniteLoop. cbv zeta.
  cbn [set_isAnimating options currentSlide totalSlides].
  destruct (infinite (options s)); [| reflexivity].
  rewrite Z.geb_leb.
  destruct (Z.leb_spec (totalSlides s) (currentSlide s)); [lia |].
  destruct (Z.ltb_spec (currentSlide s) 0); [lia | reflexivity].
Qed.

Lemma step_Ranged (n : nat) (s : t) (op : Op) :
  navigation n op ->
  Ranged n s /\ NeverJumped s ->
  Ranged n (step s op) /\ NeverJumped (step s op).
Proof.
  intros Hop [H J].
  assert (Hnext : 0 <= nextTarget s < totalSlides s)
    by (apply SliderFacts.nextTarget_range; apply H).
  assert (Hprev : 0 <= prevTarget s < totalSlides s)
    by (apply SliderFacts.prevTarget_range; apply H).
  destruct op; cbn [step navigation] in *.
  - split; [apply goToSlide_Ranged | apply goToSlide_NeverJumped]; auto.
  - split; [apply goToSlide_Ranged | apply goToSlide_NeverJumped]; auto.
  - split; [apply goToSlide_Ranged | apply goToSlide_NeverJumped]; auto.
    destruct H as (_ & -> & _). auto.
  - split; [exact H | exact J].
  - unfold handleMove. destruct (isDragging s); split; auto.
  - unfold handleEnd. destruct (isDragging s); cbn [negb]; auto.
    cbv zeta.
    set (s' := set_trackCursor Grab (set_isDragging false s)).
    assert (H' : Ranged n s') by exact H.
    assert (J' : NeverJumped s') by exact J.
    destruct (Z.abs (currentX s' - startX s') >? swipeThreshold (options s'));
      [destruct (currentX s' - startX s' >? 0) |];
      (split; [apply goToSlide_Ranged | apply goToSlide_NeverJumped]);
      auto; apply H'.
  - destruct (lockTimers s) as [| k]; auto.
    rewrite lockTimeout_in_range by apply H.
    split; [exact H | exact J].
  - destruct (restoreTimers s) as [| k] eqn:E; auto.
    destruct J as [J _]. rewrite E in J. discriminate J.
  - destruct (autoplayInterval s); auto.
    split; [apply goToSlide_Ranged | apply goToSlide_NeverJumped]; auto.
  - unfold stopAutoplay. destruct (autoplayInterval s); split; auto.
  - unfold startAutoplay. destruct (autoplayInterval s); split; auto.
  - contradiction.
Qed.

Lemma create_Ranged (given : Settings) (n : nat) (width : Z) :
  0 <= slidesToScroll (assign defaults given) ->
  (0 < n)%nat ->
  Ranged n (create given n width) /\ NeverJumped (create given n width).
Proof.
  intros Hs Hn.
  apply (SliderFacts.create_cases
           (fun s => Ranged n s /\ NeverJumped s)).
  - intros s [H J]. unfold startAutoplay.
    destruct (autoplayInterval s); split; assumption.
  - lia.
  - split.
    + apply goToSlide_Ranged.
      * unfold Ranged. cbn [set_totalSlides construct options totalSlides
                            currentSlide]. repeat split; auto; lia.
      * cbn [set_totalSlides totalSlides]. lia.
    + apply goToSlide_NeverJumped. split; reflexivity.
Qed.

Lemma run_Ranged (n : nat) (ops : list Op) :
  Forall (navigation n) ops ->
  forall s, Ranged n s /\ NeverJumped s ->
            Ranged n (run ops s) /\ NeverJumped (run ops s).
Proof.
  unfold run. induction 1 as [| op ops Hop _ IH]; simpl; auto.
  intros s H. apply IH. apply step_Ranged; auto.
Qed.

End SliderRunFacts.

Section SliderExtras.
Import Slider SliderRun.
Local Open Scope Z_scope.

(** X1. In either mode, infinite or not: a slider created with a positive
    number of slides and a non-negative [slidesToScroll] keeps
    [currentSlide] on a slide through every run of navigation. *)
Theorem currentSlide_in_range_any_mode
        (given : Settings) (slideCount : nat) (width : Z) (ops : list Op) :
  0 <= slidesToScroll (assign defaults given) ->
  (0 < slideCount)%nat ->
  Forall (navigation slideCount) ops ->
  0 <= currentSlide (run ops (create given slideCount width))
    < Z.of_nat slideCount.
Proof.
  intros Hs Hn Hops.
  destruct (SliderRunFacts.run_Ranged slideCount ops Hops _
              (SliderRunFacts.create_Ranged given slideCount width Hs Hn))
    as [(_ & Ht & Hc) _].
  rewrite <- Ht. exact Hc.
Qed.

Lemma currentSlide_in_range_any_mode_witness :
  0 <= currentSlide
         (run [LockTimeout; Prev; LockTimeout; Next; LockTimeout; Next;
               DragStart 300; DragMove 100; DragEnd; LockTimeout]
              (create noSettings 3 400))
    < Z.of_nat 3.
Proof.
  apply (currentSlide_in_range_any_mode noSettings 3 400).
  - simpl. lia.
  - lia.
  - repeat constructor; simpl; lia.
Defined.

(** X2. Navigation never reaches a clone: [next()] and [prev()] wrap
    straight to a real slide, so along every run of navigation the jump of
    [handleInfiniteLoop] does not happen; no restore timeout is ever
    pending and the track's transition is never switched off. *)
Theorem navigation_never_jumps
        (given : Settings) (slideCount : nat) (width : Z) (ops : list Op) :
  0 <= slidesToScroll (assign defaults given) ->
  (0 < slideCount)%nat ->
  Forall (navigation slideCount) ops ->
  restoreTimers (run ops (create given slideCount width)) = 0%nat
  /\ trackTransition (run ops (create given slideCount width))
     = FromStylesheet.
Proof.
  intros Hs Hn Hops.
  destruct (SliderRunFacts.run_Ranged slideCount ops Hops _
              (SliderRunFacts.create_Ranged given slideCount width Hs Hn))
    as [_ J].
  exact J.
Qed.

Lemma navigation_never_jumps_witness :
  restoreTimers
    (run [LockTimeout; Prev; LockTimeout; Next; LockTimeout]
         (create noSettings 3 400)) = 0%nat
  /\ trackTransition
       (run [LockTimeout; Prev; LockTimeout; Next; LockTimeout]
            (create noSettings 3 400)) = FromStylesheet.
Proof.
  apply (navigation_never_jumps noSettings 3 400).
  - simpl. lia.
  - lia.
  - repeat constructor.
Defined.

End SliderExtras.

Module SliderLoopFacts.
Import Slider SliderRun.
Local Open Scope Z_scope.

Lemma goToSlide_Announced (index : Z) (s : t) :
  Announced s -> Announced (goToSlide index s).
Proof.
  unfold goToSlide. destruct (isAnimating s); auto.
  intros _. split; [reflexivity |].
  exists (dispatched s). reflexivity.
Qed.

(** A [goToSlide] that is not dropped announces its index, whatever was
    announced before. *)
Lemma goToSlide_announces (index : Z) (s : t) :
  isAnimating s = false -> Announced (goToSlide index s).
Proof.
  unfold goToSlide. intros ->. split; [reflexivity |].
  exists (dispatched s). reflexivity.
Qed.

Lemma handleInfiniteLoop_Announced (s : t) :
  isAnimating s = false -> Announced s -> Announced (handleInfiniteLoop s).
Proof.
  intros Ha H. unfold handleInfiniteLoop.
  destruct (currentSlide s >=? totalSlides s);
    [| destruct (currentSlide s <? 0); [| exact H]];
    cbv zeta;
    match goal with |- Announced (set_restoreTimers ?k ?x) =>
      generalize k;
      assert (A : Announced x) by (apply goToSlide_announces; exact Ha);
      revert A; generalize x
    end;
    intros x A k; exact A.
Qed.

Lemma lockTimeout_Announced (s : t) :
  Announced s -> Announced (lockTimeout s).
Proof.
  intros H. unfold lockTimeout. cbv zeta.
  change (options (set_isAnimating false s)) with (options s).
  destruct (infinite (options s)); [| exact H].
  apply handleInfiniteLoop_Announced; [reflexivity | exact H].
Qed.

Lemma handleInfiniteLoop_totalSlides (s : t) :
  totalSlides (handleInfiniteLoop s) = totalSlides s.
Proof.
  unfold handleInfiniteLoop.
  destruct (currentSlide s >=? totalSlides s);
    [| destruct (currentSlide s <? 0); [| reflexivity]];
    cbv zeta;
    match goal with |- totalSlides (set_restoreTimers ?k ?x) = _ =>
      change (totalSlides (set_restoreTimers k x)) with (totalSlides x)
    end;
    rewrite SliderFacts.goToSlide_totalSlides; reflexivity.
Qed.

Lemma step_Announced (s : t) (op : Op) :
  Announced s -> Announced (step s op).
Proof.
  intros H. destruct op; cbn [step].
  - apply goToSlide_Announced; auto.
  - apply goToSlide_Announced; auto.
  - apply goToSlide_Announced; auto.
  - exact H.
  - unfold handleMove. destruct (isDragging s); exact H.
  - unfold handleEnd. destruct (isDragging s); cbn [negb]; auto.
    cbv zeta.
    match goal with
      |- context [if ?a then (if ?b then _ else _) else _] =>
        destruct a; [destruct b |]
    end; apply goToSlide_Announced; exact H.
  - destruct (lockTimers s) as [| k]; [exact H |].
    apply lockTimeout_Announced. exact H.
  - destruct (restoreTimers s); auto.
  - destruct (autoplayInterval s); auto. apply goToSlide_Announced; auto.
  - unfold stopAutoplay. destruct (autoplayInterval s); exact H.
  - unfold startAutoplay. destruct (autoplayInterval s); exact H.
  - unfold handleResize. cbv zeta. apply goToSlide_Announced. exact H.
Qed.

Lemma step_totalSlides (s : t) (op : Op) :
  totalSlides (step s op) = totalSlides s.
Proof.
  destruct op; cbn [step];
    try (unfold next, prev; apply SliderFacts.goToSlide_totalSlides);
    try reflexivity.
  - unfold handleMove. destruct (isDragging s); reflexivity.
  - unfold handleEnd. destruct (isDragging s); cbn [negb]; auto.
    cbv zeta.
    match goal with
      |- context [if ?a then (if ?b then _ else _) else _] =>
        destruct a; [destruct b |]
    end; unfold next, prev; rewrite SliderFacts.goToSlide_totalSlides;
      reflexivity.
  - destruct (lockTimers s) as [| k]; [reflexivity |].
    unfold lockTimeout. cbv zeta.
    match goal with |- context [if ?b then _ else _] => destruct b end;
      [rewrite handleInfiniteLoop_totalSlides |]; reflexivity.
  - destruct (restoreTimers s); reflexivity.
  - destruct (autoplayInterval s); auto.
    unfold next. apply SliderFacts.goToSlide_totalSlides.
  - unfold stopAutoplay. destruct (autoplayInterval s); reflexivity.
  - unfold startAutoplay. destruct (autoplayInterval s); reflexivity.
  - unfold handleResize. cbv zeta.
    rewrite SliderFacts.goToSlide_totalSlides. reflexivity.
Qed.

Lemma run_totalSlides (ops : list Op) :
  forall s, totalSlides (run ops s) = totalSlides s.
Proof.
  unfold run. induction ops as [| op ops IH]; intros s; simpl; auto.
  rewrite IH. apply step_totalSlides.
Qed.

Lemma create_totalSlides (given : Settings) (n : nat) (width : Z) :
  totalSlides (create given n width) = Z.of_nat n.
Proof.
  apply (SliderFacts.create_cases (fun s => totalSlides s = Z.of_nat n)).
  - intros s H. unfold startAutoplay.
    destruct (autoplayInterval s); exact H.
  - reflexivity.
  - rewrite SliderFacts.goToSlide_totalSlides. reflexivity.
Qed.

(** From a slider at rest, [next()] and the end of its transition. *)
Lemma next_round (s : t) :
  isAnimating s = false ->
  0 <= nextTarget s < totalSlides s ->
  let s' := run [Next; LockTimeout] s in
  currentSlide s' = nextTarget s
  /\ isAnimating s' = false
  /\ options s' = options s
  /\ totalSlides s' = totalSlides s.
Proof.
  intros Ha Ht. cbv zeta. unfold run. cbn [fold_left step]. unfold next.
  set (target := nextTarget s) in *. clearbody target.
  destruct s as [cur n anim auto o sx cx drag w tt ttr cu act lt rt ev].
  cbn [isAnimating totalSlides] in Ha, Ht. subst anim.
  unfold goToSlide. cbn.
  unfold lockTimeout, handleInfiniteLoop. cbn.
  rewrite Z.geb_leb.
  destruct (infinite o); [| auto].
  destruct (Z.leb_spec n target); [lia |].
  destruct (Z.ltb_spec target 0); [lia | auto].
Qed.

Lemma step_LockTimeout_O (s : t) :
  lockTimers s = 0%nat -> step s LockTimeout = s.
Proof. intros H. cbn [step]. rewrite H. reflexivity. Qed.

Lemma step_LockTimeout_S (s : t) (k : nat) :
  lockTimers s = S k ->
  step s LockTimeout = lockTimeout (set_lockTimers k s).
Proof. intros H. cbn [step]. rewrite H. reflexivity. Qed.

(** The end of a transition either leaves the slider at rest or, after a
    jump from a clone, in a new transition on a real slide. *)
Lemma lockTimeout_outcome (s : t) :
  0 < totalSlides s ->
  (isAnimating (lockTimeout s) = false
   /\ lockTimers (lockTimeout s) = lockTimers s)
  \/ (isAnimating (lockTimeout s) = true
      /\ lockTimers (lockTimeout s) = S (lockTimers s)
      /\ 0 <= currentSlide (set_lockTimers 0 (lockTimeout s))
         < totalSlides (set_lockTimers 0 (lockTimeout s))).
Proof.
  destruct s as [cur n anim auto o sx cx drag w tt ttr cu act lt rt ev].
  cbn [totalSlides]. intros Hn.
  unfold lockTimeout, handleInfiniteLoop. cbn.
  destruct (infinite o); [| left; auto].
  rewrite Z.geb_leb.
  destruct (Z.leb_spec n cur).
  - right. unfold goToSlide. cbn. repeat split; lia.
  - destruct (Z.ltb_spec cur 0).
    + right. unfold goToSlide. cbn. repeat split; lia.
    + left. auto.
Qed.

Lemma advance_S (k : nat) :
  advance (S k) = [Next; LockTimeout] ++ advance k.
Proof. reflexivity. Qed.

End SliderLoopFacts.

Section SliderLoopExtras.
Import Slider SliderRun.
Local Open Scope Z_scope.

(** X3. Whatever happens to a slider that has slides (navigation, resizes,
    [goToSlide] on any index, timeouts), the active class is on the slide
    whose index is [currentSlide] and on no other, so on no slide at all
    while [currentSlide] names none; and the last [slideChange] event
    dispatched carries [currentSlide]. *)
Theorem active_and_event_follow_currentSlide
        (given : Settings) (slideCount : nat) (width : Z) (ops : list Op) :
  (0 < slideCount)%nat ->
  let s := run ops (create given slideCount width) in
  (forall index,
      SliderEnds.slideIsActive s index = true
      <-> index = currentSlide s /\ 0 <= index < totalSlides s)
  /\ ((currentSlide s < 0 \/ totalSlides s <= currentSlide s) ->
      forall index, SliderEnds.slideIsActive s index = false)
  /\ exists earlier, dispatched s = earlier ++ [currentSlide s].
Proof.
  intros Hn. cbv zeta.
  assert (H0 : Announced (create given slideCount width)).
  { apply SliderFacts.create_cases.
    - intros s H. unfold startAutoplay.
      destruct (autoplayInterval s); exact H.
    - lia.
    - apply SliderLoopFacts.goToSlide_announces. reflexivity. }
  assert (H : Announced (run ops (create given slideCount width))).
  { revert H0. generalize (create given slideCount width). unfold run.
    induction ops as [| op ops IH]; intros s H; cbn [fold_left].
    - exact H.
    - apply IH. apply SliderLoopFacts.step_Announced. exact H. }
  revert H. generalize (run ops (create given slideCount width)).
  intros s [A E].
  assert (M : forall index,
             SliderEnds.slideIsActive s index = true
             <-> index = currentSlide s /\ 0 <= index < totalSlides s).
  { intros index. unfold SliderEnds.slideIsActive. rewrite A.
    rewrite !andb_true_iff, Z.leb_le, Z.ltb_lt, Z.eqb_eq. tauto. }
  split; [exact M |]. split; [| exact E].
  intros Hout index.
  destruct (SliderEnds.slideIsActive s index) eqn:B; [| reflexivity].
  apply M in B. lia.
Qed.

Lemma active_and_event_follow_currentSlide_witness :
  let s := run [LockTimeout; GoTo 7]
               (create noSettings 3 400) in
  (forall index,
      SliderEnds.slideIsActive s index = true
      <-> index = currentSlide s /\ 0 <= index < totalSlides s)
  /\ ((currentSlide s < 0 \/ totalSlides s <= currentSlide s) ->
      forall index, SliderEnds.slideIsActive s index = false)
  /\ exists earlier, dispatched s = earlier ++ [currentSlide s].
Proof.
  apply (active_and_event_follow_currentSlide noSettings 3 400). lia.
Defined.

(** X4. Whatever happens to a slider that has slides, a transition in
    progress has exactly one timeout pending to end it and a slider at
    rest has none. *)
Theorem lock_has_one_timeout
        (given : Settings) (slideCount : nat) (width : Z) (ops : list Op) :
  (0 < slideCount)%nat ->
  let s := run ops (create given slideCount width) in
  lockTimers s = (if isAnimating s then 1 else 0)%nat.
Proof. intros _. apply SliderFacts.reachable_one_timer. Qed.

Lemma lock_has_one_timeout_witness :
  let s := run [Next; LockTimeout; GoTo 3; Prev; LockTimeout; Next]
               (create noSettings 3 400) in
  lockTimers s = (if isAnimating s then 1 else 0)%nat.
Proof.
  apply (lock_has_one_timeout noSettings 3 400). lia.
Defined.

(** X5. A slider that has slides is never left locked: after any history,
    once two lock timeouts have had their turn [isAnimating] is off. *)
Theorem lock_released_within_two_timeouts
        (given : Settings) (slideCount : nat) (width : Z) (ops : list Op) :
  (0 < slideCount)%nat ->
  isAnimating
    (run (ops ++ [LockTimeout; LockTimeout])
         (create given slideCount width)) = false.
Proof.
  intros Hn. rewrite DragFacts.run_app.
  pose proof (SliderFacts.reachable_one_timer given slideCount width ops)
    as HT. cbv zeta in HT.
  assert (Hn' : 0 < totalSlides (run ops (create given slideCount width))).
  { rewrite SliderLoopFacts.run_totalSlides,
      SliderLoopFacts.create_totalSlides. lia. }
  revert HT Hn'. generalize (run ops (create given slideCount width)).
  intros s HT Hn'. unfold run. cbn [fold_left].
  destruct (isAnimating s) eqn:A.
  - rewrite (SliderLoopFacts.step_LockTimeout_S s 0 HT).
    destruct (SliderLoopFacts.lockTimeout_outcome (set_lockTimers 0 s) Hn')
      as [(A1 & T1) | (A1 & T1 & C1)].
    + rewrite SliderLoopFacts.step_LockTimeout_O;
        [exact A1 | rewrite T1; reflexivity].
    + rewrite (SliderLoopFacts.step_LockTimeout_S _ 0 T1).
      rewrite SliderRunFacts.lockTimeout_in_range by exact C1.
      reflexivity.
  - rewrite (SliderLoopFacts.step_LockTimeout_O s HT).
    rewrite (SliderLoopFacts.step_LockTimeout_O s HT). exact A.
Qed.

Lemma lock_released_within_two_timeouts_witness :
  isAnimating
    (run ([LockTimeout; GoTo 3] ++ [LockTimeout; LockTimeout])
         (create noSettings 3 400)) = false.
Proof.
  apply (lock_released_within_two_timeouts noSettings 3 400). lia.
Defined.

(** X6. In infinite mode with [slidesToScroll] 1, [k] times [next()], each
    left to finish, take a slider at rest from slide [i] to slide
    [(i + k) mod totalSlides]: after [totalSlides] steps it is back. *)
Theorem next_cycles (k : nat) (s : t) :
  infinite (options s) = true ->
  slidesToScroll (options s) = 1 ->
  isAnimating s = false ->
  0 <= currentSlide s < totalSlides s ->
  currentSlide (run (advance k) s)
  = (currentSlide s + Z.of_nat k) mod totalSlides s.
Proof.
  revert s. induction k as [| k IH]; intros s Hi Hs Ha Hc.
  - cbn [advance repeat List.concat run fold_left Z.of_nat].
    rewrite Z.add_0_r, Z.mod_small; auto.
  - rewrite SliderLoopFacts.advance_S, DragFacts.run_app.
    assert (Ht : nextTarget s = (currentSlide s + 1) mod totalSlides s).
    { unfold nextTarget. cbv zeta. rewrite Hi, Hs, Z.geb_leb.
      destruct (Z.leb_spec (totalSlides s) (currentSlide s + 1)).
      - replace (currentSlide s + 1) with (totalSlides s) by lia.
        rewrite Z.mod_same by lia. reflexivity.
      - rewrite Z.mod_small; lia. }
    assert (Hr : 0 <= nextTarget s < totalSlides s).
    { rewrite Ht. apply Z.mod_pos_bound. lia. }
    destruct (SliderLoopFacts.next_round s Ha Hr) as (C & A & O & T).
    rewrite IH; rewrite ?O, ?T, ?C; auto.
    rewrite Ht, Zplus_mod_idemp_l. f_equal. lia.
Qed.

Lemma next_cycles_witness :
  currentSlide (run (advance 5) restingSlider)
  = (currentSlide restingSlider + Z.of_nat 5)
    mod totalSlides restingSlider.
Proof.
  apply (next_cycles 5 restingSlider).
  - reflexivity.
  - reflexivity.
  - reflexivity.
  - simpl. lia.
Defined.

(** X7. Without infinite mode, [k] times [next()], each left to finish,
    take a slider at rest from slide [i] to slide [i + k * slidesToScroll]
    or to the last slide, whichever comes first, and it stays there. *)
Theorem next_saturates (k : nat) (s : t) :
  infinite (options s) = false ->
  0 <= slidesToScroll (options s) ->
  isAnimating s = false ->
  0 <= currentSlide s < totalSlides s ->
  currentSlide (run (advance k) s)
  = Z.min (currentSlide s + Z.of_nat k * slidesToScroll (options s))
      (totalSlides s - 1).
Proof.
  revert s. induction k as [| k IH]; intros s Hi Hs Ha Hc.
  - cbn [advance repeat List.concat run fold_left Z.of_nat]. lia.
  - rewrite SliderLoopFacts.advance_S, DragFacts.run_app.
    assert (Ht : nextTarget s
                 = Z.min (currentSlide s + slidesToScroll (options s))
                     (totalSlides s - 1)).
    { unfold nextTarget. cbv zeta. rewrite Hi, Z.geb_leb.
      destruct (Z.leb_spec (totalSlides s)
                  (currentSlide s + slidesToScroll (options s))); lia. }
    assert (Hr : 0 <= nextTarget s < totalSlides s) by (rewrite Ht; lia).
    destruct (SliderLoopFacts.next_round s Ha Hr) as (C & A & O & T).
    rewrite IH; rewrite ?O, ?T, ?C; auto.
    rewrite Ht. nia.
Qed.

Lemma next_saturates_witness :
  let s := run [LockTimeout] (create (withInfinite false) 3 400) in
  currentSlide (run (advance 4) s)
  = Z.min (currentSlide s + Z.of_nat 4 * slidesToScroll (options s))
      (totalSlides s - 1).
Proof.
  apply (next_saturates 4
           (run [LockTimeout] (create (withInfinite false) 3 400))).
  - reflexivity.
  - simpl. lia.
  - reflexivity.
  - simpl. lia.
Defined.

End SliderLoopExtras.

Module GestureFacts.
Import Slider.
Local Open Scope Z_scope.

(** The targets depend on the index, the options and the slide count
    only. *)
Lemma nextTarget_ext (a b : t) :
  currentSlide a = currentSlide b -> options a = options b ->
  totalSlides a = totalSlides b -> nextTarget a = nextTarget b.
Proof. unfold nextTarget. intros -> -> ->. reflexivity. Qed.

Lemma prevTarget_ext (a b : t) :
  currentSlide a = currentSlide b -> options a = options b ->
  totalSlides a = totalSlides b -> prevTarget a = prevTarget b.
Proof. unfold prevTarget. intros -> -> ->. reflexivity. Qed.

(** A release whose computed difference exceeds the threshold. *)
Lemma handleEnd_beyond (s : t) :
  isDragging s = true ->
  swipeThreshold (options s) < Z.abs (currentX s - startX s) ->
  currentSlide (handleEnd s)
  = if isAnimating s then currentSlide s
    else if currentX s - startX s >? 0 then prevTarget s
         else nextTarget s.
Proof.
  intros Hd Ht. rewrite (DragFacts.handleEnd_cases s Hd). cbv zeta.
  rewrite Z.gtb_ltb.
  destruct (Z.ltb_spec (swipeThreshold (options s))
              (Z.abs (currentX s - startX s))) as [_ | L]; [| lia].
  destruct (currentX s - startX s >? 0); unfold prev, next;
    rewrite SliderFacts.goToSlide_currentSlide; reflexivity.
Qed.

Lemma pick_idem {A : Type} (g : option A) (x : A) :
  pick g (pick g x) = pick g x.
Proof. destruct g; reflexivity. Qed.

Lemma assign_idem (o : Options) (m : Settings) :
  assign (assign o m) m = assign o m.
Proof.
  unfold assign.
  cbn [slidesToShow slidesToScroll autoplay autoplaySpeed infinite dots
       arrows draggable swipeThreshold speed easing pauseOnHover
       responsive].
  rewrite !pick_idem. reflexivity.
Qed.

(** The drag handlers, where they are installed: once the pointer has
    moved, a release beyond the threshold commits by the sign of the
    pointer delta. *)
Lemma handlers_commit (start x : Z) (moves : list Z) (s : t) :
  swipeThreshold (options s) < Z.abs (pointerDelta start (x :: moves)) ->
  currentSlide (run (gesture start (x :: moves)) s)
  = if isAnimating s then currentSlide s
    else if pointerDelta start (x :: moves) >? 0 then prevTarget s
         else nextTarget s.
Proof.
  intros H. unfold gesture. rewrite app_comm_cons, DragFacts.run_app.
  pose proof (DragFacts.gesture_diff start (x :: moves) s) as G.
  cbv zeta in G. destruct G as (D & X & I).
  destruct (DragFacts.moves_dragging (x :: moves) (handleStart start s)
              eq_refl) as (_ & _ & _ & _ & T & O & A).
  change (run (map DragMove (x :: moves)) (handleStart start s))
    with (run (DragStart start :: map DragMove (x :: moves)) s) in T, O, A.
  set (s' := run (DragStart start :: map DragMove (x :: moves)) s) in *.
  change (run [DragEnd] s') with (handleEnd s').
  change (totalSlides (handleStart start s)) with (totalSlides s) in T.
  change (options (handleStart start s)) with (options s) in O.
  change (isAnimating (handleStart start s)) with (isAnimating s) in A.
  rewrite (handleEnd_beyond s' D) by (rewrite X, O; exact H).
  rewrite X, A, I.
  rewrite (prevTarget_ext s' s I O T).
  rewrite (nextTarget_ext s' s I O T).
  reflexivity.
Qed.

End GestureFacts.

Section GestureExtras.
Import Slider.
Local Open Scope Z_scope.

(** X8. On a slider created draggable, and so with the drag handlers
    installed, after any history: once the pointer has moved, a release
    whose pointer delta exceeds the swipe threshold commits by the sign of
    the delta. On a slider at rest the index becomes the target of
    [prev()] for a positive delta and of [next()] for a negative one;
    during a transition it is dropped. *)
Theorem moved_gesture_commits
        (given : Settings) (slideCount : nat) (width : Z)
        (history : list Op) (start x : Z) (moves : list Z) :
  draggable (assign defaults given) = true ->
  (0 < slideCount)%nat ->
  let s := run history (create given slideCount width) in
  swipeThreshold (options s) < Z.abs (pointerDelta start (x :: moves)) ->
  currentSlide (run (gesture start (x :: moves)) s)
  = if isAnimating s then currentSlide s
    else if pointerDelta start (x :: moves) >? 0 then prevTarget s
         else nextTarget s.
Proof.
  intros _ _. cbv zeta. apply GestureFacts.handlers_commit.
Qed.

Lemma moved_gesture_commits_witness :
  let s := run [LockTimeout; GoTo 1; LockTimeout]
               (create noSettings 5 400) in
  currentSlide (run (gesture 300 [250; 120]) s)
  = if isAnimating s then currentSlide s
    else if pointerDelta 300 [250; 120] >? 0 then prevTarget s
         else nextTarget s.
Proof.
  apply (moved_gesture_commits noSettings 5 400
           [LockTimeout; GoTo 1; LockTimeout] 300 250 [120]).
  - reflexivity.
  - lia.
  - simpl. lia.
Defined.

(** X9. The clone-and-jump, when a clone is reached. On a slider at rest
    in infinite mode, [goToSlide(totalSlides)] followed by the end of its
    transition puts the slider on slide [0] with the track at offset [0]
    and its transition off, dispatches a second [slideChange] for slide
    [0], holds the lock for one more transition, and leaves a timeout that
    switches the transition back on. [goToSlide(-1)] jumps to the last
    slide in the same way. *)
Theorem jump_from_clone (s : t) :
  isAnimating s = false ->
  infinite (options s) = true ->
  0 < totalSlides s ->
  let past := run [GoTo (totalSlides s); LockTimeout] s in
  let before := run [GoTo (-1); LockTimeout] s in
  currentSlide past = 0
  /\ trackTransform past = 0
  /\ trackTransition past = NoTransition
  /\ isAnimating past = true
  /\ restoreTimers past = S (restoreTimers s)
  /\ dispatched past = dispatched s ++ [totalSlides s; 0]
  /\ trackTransition (step past RestoreTimeout) = Animated
  /\ currentSlide before = totalSlides s - 1
  /\ trackTransform before = - (totalSlides s - 1) * slideWidth s
  /\ dispatched before = dispatched s ++ [-1; totalSlides s - 1].
Proof.
  destruct s as [cur n anim auto o sx cx drag w tt ttr cu act lt rt ev].
  cbn [isAnimating options totalSlides restoreTimers dispatched slideWidth].
  intros -> Hi Hn. cbv zeta. unfold run. cbn [fold_left step].
  unfold goToSlide at 2 4 6 8 10 12 14 16 18 20. cbn.
  unfold lockTimeout, handleInfiniteLoop. cbn. rewrite Hi.
  rewrite !Z.geb_leb.
  destruct (Z.leb_spec n n) as [_ | L]; [| lia].
  destruct (Z.leb_spec n (-1)) as [L | _]; [lia |].
  unfold goToSlide. cbn.
  rewrite <- !app_assoc. cbn.
  repeat split; reflexivity.
Qed.

Lemma jump_from_clone_witness :
  let s := freshSlider in
  let past := run [GoTo (totalSlides s); LockTimeout] s in
  let before := run [GoTo (-1); LockTimeout] s in
  currentSlide past = 0
  /\ trackTransform past = 0
  /\ trackTransition past = NoTransition
  /\ isAnimating past = true
  /\ restoreTimers past = S (restoreTimers s)
  /\ dispatched past = dispatched s ++ [totalSlides s; 0]
  /\ trackTransition (step past RestoreTimeout) = Animated
  /\ currentSlide before = totalSlides s - 1
  /\ trackTransform before = - (totalSlides s - 1) * slideWidth s
  /\ dispatched before = dispatched s ++ [-1; totalSlides s - 1].
Proof.
  apply (jump_from_clone freshSlider).
  - reflexivity.
  - reflexivity.
  - simpl. lia.
Defined.

(** X10. A resize at a width that no breakpoint rule matches leaves the
    options as they are: what an earlier, narrower resize overrode is not
    put back when the window widens. *)
Theorem handleResize_without_match (windowWidth : Z) (s : t) :
  matching windowWidth (responsive (options s)) = [] ->
  options (handleResize windowWidth s) = options s.
Proof.
  intros H. unfold handleResize. cbv zeta.
  rewrite SliderFacts.goToSlide_options.
  change (options (set_options ?o s)) with o.
  apply ResizeFacts.walk_no_match. exact H.
Qed.

Lemma handleResize_without_match_witness :
  options (handleResize 1280 (handleResize 500 responsiveSlider))
  = options (handleResize 500 responsiveSlider).
Proof.
  apply (handleResize_without_match 1280
           (handleResize 500 responsiveSlider)).
  reflexivity.
Defined.

(** X11. Resizing twice at the same width gives the options of resizing
    once, as long as no matching rule replaces the rules themselves. *)
Theorem handleResize_twice (windowWidth : Z) (s : t) :
  lastGiven given_responsive windowWidth (responsive (options s)) = None ->
  options (handleResize windowWidth (handleResize windowWidth s))
  = options (handleResize windowWidth s).
Proof.
  intros H.
  rewrite (ResizeFacts.handleResize_options windowWidth
             (handleResize windowWidth s)).
  rewrite (ResizeFacts.handleResize_options windowWidth s).
  set (o := options s) in *.
  set (m := merged windowWidth (responsive o)).
  assert (R : responsive (assign o m) = responsive o).
  { unfold assign. cbn [responsive]. unfold m at 1. unfold merged.
    cbn [given_responsive]. rewrite H. reflexivity. }
  rewrite R. fold m. apply GestureFacts.assign_idem.
Qed.

Lemma handleResize_twice_witness :
  options (handleResize 500 (handleResize 500 responsiveSlider))
  = options (handleResize 500 responsiveSlider).
Proof.
  apply (handleResize_twice 500 responsiveSlider). reflexivity.
Defined.

End GestureExtras.

(* ===================================================================== *)
(** * Further properties of the validators and the contact form *)
(* ===================================================================== *)

Module EmailFacts.
Import Regex ContactFormSubmit.

Lemma email_char_set (c : JsString.code_unit) :
  set_matches true [ASpace; AChar (JsString.of_ascii "@")] c = email_char c.
Proof.
  unfold set_matches, email_char. cbn [existsb atom_matches].
  rewrite orb_false_r.
  destruct (JsString.is_space c), (N.eqb c (JsString.of_ascii "@"));
    reflexivity.
Qed.

Lemma forallb_email_char (s : jsstring) :
  forallb (set_matches true [ASpace; AChar (JsString.of_ascii "@")]) s
  = forallb email_char s.
Proof.
  induction s as [| c s IH]; cbn [forallb]; [reflexivity |].
  rewrite IH, email_char_set. reflexivity.
Qed.

(** Words of [[^\s@]+]. *)
Lemma Matches_part (s : jsstring) :
  Matches (Plus Utils.not_space_at) s
  <-> s <> [] /\ forallb email_char s = true.
Proof.
  unfold Utils.not_space_at.
  rewrite <- RegexFacts.test_Matches, RegexFacts.test_Plus_Set.
  rewrite forallb_email_char.
  destruct s; simpl; split.
  - discriminate.
  - intros [H _]. congruence.
  - intros H. split; [discriminate | exact H].
  - intros [_ H]. exact H.
Qed.

Lemma Matches_char (c : JsString.code_unit) (s : jsstring) :
  Matches (Atom (AChar c)) s <-> s = [c].
Proof.
  split.
  - intros H. inversion H; subst. simpl in *.
    match goal with E : N.eqb _ _ = true |- _ =>
      apply N.eqb_eq in E; subst end.
    reflexivity.
  - intros ->. constructor. simpl. apply N.eqb_refl.
Qed.

Lemma Matches_Seq (r1 r2 : regex) (s : jsstring) :
  Matches (Seq r1 r2) s
  <-> exists s1 s2, s = s1 ++ s2 /\ Matches r1 s1 /\ Matches r2 s2.
Proof.
  split.
  - intros H. inversion H; subst. eauto.
  - intros (s1 & s2 & -> & H1 & H2). constructor; auto.
Qed.

(** The shape of the strings [isValidEmail] accepts. *)
Lemma isValidEmail_shape (email : jsstring) :
  Utils.isValidEmail email = true
  <-> exists local domain rest,
        email = local ++ [atSign] ++ domain ++ [fullStop] ++ rest
        /\ local <> [] /\ domain <> [] /\ rest <> []
        /\ forallb email_char local = true
        /\ forallb email_char domain = true
        /\ forallb email_char rest = true.
Proof.
  unfold Utils.isValidEmail, Utils.email_regex.
  rewrite RegexFacts.test_Matches.
  split.
  - intros H.
    apply Matches_Seq in H as (l & s1 & -> & Hl & H).
    apply Matches_Seq in H as (a & s2 & -> & Ha & H).
    apply Matches_Seq in H as (d & s3 & -> & Hd & H).
    apply Matches_Seq in H as (p & r & -> & Hp & Hr).
    apply Matches_char in Ha, Hp. subst a p.
    apply Matches_part in Hl as [Hl1 Hl2].
    apply Matches_part in Hd as [Hd1 Hd2].
    apply Matches_part in Hr as [Hr1 Hr2].
    exists l, d, r. repeat split; auto.
  - intros (l & d & r & -> & Hl & Hd & Hr & Al & Ad & Ar).
    apply Matches_Seq. exists l, ([atSign] ++ d ++ [fullStop] ++ r).
    split; [reflexivity |]. split; [apply Matches_part; auto |].
    apply Matches_Seq. exists [atSign], (d ++ [fullStop] ++ r).
    split; [reflexivity |]. split; [apply Matches_char; reflexivity |].
    apply Matches_Seq. exists d, ([fullStop] ++ r).
    split; [reflexivity |]. split; [apply Matches_part; auto |].
    apply Matches_Seq. exists [fullStop], r.
    split; [reflexivity |]. split; [apply Matches_char; reflexivity |].
    apply Matches_part; auto.
Qed.

Lemma email_char_no_at (s : jsstring) :
  forallb email_char s = true -> count_occ N.eq_dec s atSign = 0%nat.
Proof.
  induction s as [| c s IH]; simpl; [reflexivity |].
  intros H. apply andb_true_iff in H as [Hc Hs].
  unfold email_char in Hc. apply andb_true_iff in Hc as [_ Hc].
  apply negb_true_iff, N.eqb_neq in Hc.
  destruct (N.eq_dec c atSign) as [E | _]; [contradiction | auto].
Qed.

Lemma email_char_no_space (s : jsstring) :
  forallb email_char s = true -> existsb JsString.is_space s = false.
Proof.
  induction s as [| c s IH]; simpl; [reflexivity |].
  intros H. apply andb_true_iff in H as [Hc Hs].
  unfold email_char in Hc. apply andb_true_iff in Hc as [Hc _].
  apply negb_true_iff in Hc. rewrite Hc, IH; auto.
Qed.

(** Trimming leaves a string without whitespace alone. *)
Lemma trimStart_no_space (s : jsstring) :
  existsb JsString.is_space s = false -> JsString.trimStart s = s.
Proof.
  destruct s as [| c s]; simpl; [reflexivity |].
  intros H. apply orb_false_iff in H as [-> _]. reflexivity.
Qed.

Lemma existsb_rev_space (s : jsstring) :
  existsb JsString.is_space (rev s) = existsb JsString.is_space s.
Proof.
  induction s as [| c s IH]; simpl; [reflexivity |].
  rewrite existsb_app, IH. simpl. rewrite orb_false_r. apply orb_comm.
Qed.

Lemma trim_no_space (s : jsstring) :
  existsb JsString.is_space s = false -> JsString.trim s = s.
Proof.
  intros H. unfold JsString.trim, JsString.trimEnd.
  rewrite (trimStart_no_space s H).
  rewrite trimStart_no_space by (rewrite existsb_rev_space; exact H).
  apply rev_involutive.
Qed.

Lemma trimStart_spaces (before s : jsstring) :
  forallb JsString.is_space before = true ->
  JsString.trimStart (before ++ s) = JsString.trimStart s.
Proof.
  induction before as [| c before IH]; simpl; [reflexivity |].
  intros H. apply andb_true_iff in H as [-> H]. auto.
Qed.

Lemma forallb_rev_space (s : jsstring) :
  forallb JsString.is_space (rev s) = forallb JsString.is_space s.
Proof.
  induction s as [| c s IH]; simpl; [reflexivity |].
  rewrite forallb_app, IH. simpl. rewrite andb_true_r. apply andb_comm.
Qed.

(** Whitespace around a string without whitespace is what [trim] removes. *)
Lemma trim_around (before s after : jsstring) :
  forallb JsString.is_space before = true ->
  forallb JsString.is_space after = true ->
  existsb JsString.is_space s = false ->
  s <> [] ->
  JsString.trim (before ++ s ++ after) = s.
Proof.
  intros Hb Ha Hs Hn. unfold JsString.trim, JsString.trimEnd.
  rewrite (trimStart_spaces before _ Hb).
  assert (E : JsString.trimStart (s ++ after) = s ++ after).
  { destruct s as [| c s]; [contradiction |]. simpl in *.
    apply orb_false_iff in Hs as [-> _]. reflexivity. }
  rewrite E, rev_app_distr.
  rewrite trimStart_spaces by (rewrite forallb_rev_space; exact Ha).
  rewrite trimStart_no_space by (rewrite existsb_rev_space; exact Hs).
  apply rev_involutive.
Qed.

Lemma valid_email_facts (email : jsstring) :
  Utils.isValidEmail email = true ->
  count_occ N.eq_dec email atSign = 1%nat
  /\ existsb JsString.is_space email = false
  /\ (5 <= List.length email)%nat.
Proof.
  intros H.
  apply isValidEmail_shape in H
    as (l & d & r & -> & Hl & Hd & Hr & Al & Ad & Ar).
  repeat split.
  - rewrite !count_occ_app.
    pose proof (email_char_no_at l Al) as E1.
    pose proof (email_char_no_at d Ad) as E2.
    pose proof (email_char_no_at r Ar) as E3.
    change (count_occ N.eq_dec [atSign] atSign) with 1%nat.
    change (count_occ N.eq_dec [fullStop] atSign) with 0%nat.
    unfold jsstring, JsString.t, JsString.code_unit in *. lia.
  - rewrite !existsb_app.
    rewrite (email_char_no_space l Al), (email_char_no_space d Ad),
      (email_char_no_space r Ar).
    reflexivity.
  - rewrite !length_app. simpl.
    destruct l; [contradiction |]. destruct d; [contradiction |].
    destruct r; [contradiction |]. simpl. lia.
Qed.

(** The email check of [ContactForm.validateField]. *)
Lemma validateField_email (raw : jsstring) (req : bool) :
  fst (ContactForm.validateField (ContactForm.emailField raw req))
  = if JsString.truthy (JsString.trim raw)
    then Utils.isValidEmail (JsString.trim raw)
    else negb req.
Proof.
  unfold ContactForm.validateField, ContactForm.emailField.
  cbn [ContactForm.value ContactForm.name ContactForm.type
       ContactForm.required].
  change (JsString.eqb (js "email") (js "hidden")) with false.
  change (JsString.eqb (js "email") (js "_honey")) with false.
  change (JsString.eqb (js "email") (js "email")) with true.
  change (JsString.eqb (js "email") (js "phone")) with false.
  change (JsString.eqb (js "email") (js "service")) with false.
  change (JsString.eqb (js "email") (js "message")) with false.
  cbn [orb andb].
  change (test ContactForm.emailRegex (JsString.trim raw))
    with (Utils.isValidEmail (JsString.trim raw)).
  unfold ContactForm.fail_when.
  destruct (JsString.truthy (JsString.trim raw)); cbn [negb andb].
  - rewrite andb_false_r. cbn [andb].
    destruct (Utils.isValidEmail (JsString.trim raw)); reflexivity.
  - rewrite andb_true_r. destruct req; reflexivity.
Qed.

End EmailFacts.

Section EmailExtras.
Import ContactForm ContactFormSubmit.

(** X12. [Utils.isValidEmail] accepts exactly the strings of the shape
    [local@domain.rest] in which the three parts are non-empty and hold
    neither whitespace nor [@]. *)
Theorem isValidEmail_accepts_exactly (email : jsstring) :
  Utils.isValidEmail email = true
  <-> exists local domain rest,
        email = local ++ [atSign] ++ domain ++ [fullStop] ++ rest
        /\ local <> [] /\ domain <> [] /\ rest <> []
        /\ forallb email_char local = true
        /\ forallb email_char domain = true
        /\ forallb email_char rest = true.
Proof. apply EmailFacts.isValidEmail_shape. Qed.

(** X13. An address [Utils.isValidEmail] accepts holds exactly one [@] and
    no whitespace, and at least five characters. *)
Theorem valid_email_one_at_no_space (email : jsstring) :
  Utils.isValidEmail email = true ->
  count_occ N.eq_dec email atSign = 1%nat
  /\ existsb JsString.is_space email = false
  /\ (5 <= List.length email)%nat.
Proof. apply EmailFacts.valid_email_facts. Qed.

Lemma valid_email_one_at_no_space_witness :
  count_occ N.eq_dec (js "user@example.com") atSign = 1%nat
  /\ existsb JsString.is_space (js "user@example.com") = false
  /\ (5 <= List.length (js "user@example.com"))%nat.
Proof.
  apply (valid_email_one_at_no_space (js "user@example.com")).
  reflexivity.
Defined.

(** X14. The email check of the contact form is [Utils.isValidEmail] on
    the trimmed value: a value that is blank passes unless the field is
    required, any other passes exactly when its trimmed form is a valid
    address. So the form accepts an address [Utils.isValidEmail] accepts
    also with whitespace around it. *)
Theorem contact_email_is_trimmed_isValidEmail (raw : jsstring) (req : bool) :
  fst (validateField (emailField raw req))
  = (if JsString.truthy (JsString.trim raw)
     then Utils.isValidEmail (JsString.trim raw)
     else negb req)
  /\ (Utils.isValidEmail raw = true ->
      forall before after,
        forallb JsString.is_space before = true ->
        forallb JsString.is_space after = true ->
        fst (validateField (emailField (before ++ raw ++ after) req))
        = true).
Proof.
  split; [apply EmailFacts.validateField_email |].
  intros H before after Hb Ha.
  rewrite EmailFacts.validateField_email.
  assert (T : JsString.trim (before ++ raw ++ after) = raw).
  { destruct (EmailFacts.valid_email_facts raw H) as (_ & S & L).
    apply EmailFacts.trim_around; auto.
    intros ->. simpl in L. lia. }
  rewrite T, H.
  destruct raw; [discriminate H | reflexivity].
Qed.

End EmailExtras.

Module FormFacts.
Import ContactForm ContactFormSubmit.

(** The walk of [handleSubmit] from any point on. *)
Lemma validateAll_from (fs : list Field) :
  forall ok,
    fold_left
      (fun (isValid : bool) (field : Field) =>
         if negb (fst (validateField field)) then false else isValid)
      fs ok
    = ok && forallb passes fs.
Proof.
  induction fs as [| f fs IH]; intros ok; cbn [fold_left forallb].
  - rewrite andb_true_r. reflexivity.
  - rewrite IH. unfold passes at 2.
    destruct (fst (validateField f)), ok; reflexivity.
Qed.

Lemma validateAll_spec (fs : list Field) :
  validateAll fs = forallb passes fs.
Proof. unfold validateAll. apply validateAll_from. Qed.

End FormFacts.

Section FormExtras.
Import ContactForm ContactFormSubmit.

(** X15. A field left blank (empty or whitespace only), unless it is
    hidden or the honeypot, passes exactly when it is not required; when
    it fails, the error shown is [This field is required], or [Please
    select a service] on the service field. *)
Theorem blank_field_passes_unless_required (field : Field) :
  JsString.eqb (type field) (js "hidden") = false ->
  JsString.eqb (name field) (js "_honey") = false ->
  JsString.truthy (JsString.trim (value field)) = false ->
  fst (validateField field) = negb (required field)
  /\ shownError (snd (validateField field))
     = if required field
       then Some (if JsString.eqb (name field) (js "service")
                  then js "Please select a service"
                  else js "This field is required")
       else None.
Proof.
  intros Ht Hn Hv. unfold validateField. rewrite Ht, Hn, Hv.
  cbn [orb andb negb]. unfold fail_when.
  rewrite !andb_false_r.
  destruct (required field);
    destruct (JsString.eqb (name field) (js "service"));
    cbn; auto.
Qed.

Lemma blank_field_passes_unless_required_witness :
  fst (validateField (messageField (js "   ") true)) = negb true
  /\ shownError (snd (validateField (messageField (js "   ") true)))
     = Some (js "This field is required").
Proof.
  apply (blank_field_passes_unless_required (messageField (js "   ") true));
    reflexivity.
Defined.

(** X16. The message box passes when its trimmed value has at least ten
    characters, or when it is blank and not required. *)
Theorem message_needs_ten_characters (raw : jsstring) (req : bool) :
  fst (validateField (messageField raw req))
  = if JsString.truthy (JsString.trim raw)
    then (10 <=? List.length (JsString.trim raw))%nat
    else negb req.
Proof.
  unfold validateField, messageField.
  cbn [value name type required].
  change (JsString.eqb (js "textarea") (js "hidden")) with false.
  change (JsString.eqb (js "message") (js "_honey")) with false.
  change (JsString.eqb (js "message") (js "email")) with false.
  change (JsString.eqb (js "message") (js "phone")) with false.
  change (JsString.eqb (js "message") (js "service")) with false.
  change (JsString.eqb (js "message") (js "message")) with true.
  cbn [orb andb]. unfold fail_when.
  destruct (JsString.truthy (JsString.trim raw)); cbn [negb andb].
  - rewrite andb_false_r.
    destruct (Nat.ltb_spec (List.length (JsString.trim raw)) 10);
      cbn [fst]; symmetry;
      [apply Nat.leb_gt | apply Nat.leb_le]; lia.
  - rewrite andb_true_r. destruct req; reflexivity.
Qed.

(** X17. On submit the verdict is taken over all the controls, none left
    out after an earlier failure. The submission goes through exactly when
    every control passes: then the button is disabled and shows that it is
    sending, and no notification is shown; otherwise the default is
    prevented, the button is left as it was and one notification asks to
    fix the errors. Controls that are hidden, or the honeypot, never hold
    a submission back. *)
Theorem handleSubmit_blocks_unless_all_pass (f : Form) :
  let r := handleSubmit f in
  let ok := forallb passes (fields f) in
  defaultPrevented r = negb ok
  /\ buttonDisabled r = (if ok then true else submitDisabled f)
  /\ buttonSending r = (if ok then true else submitSending f)
  /\ notification r
     = (if ok then None
        else Some (js "Please fix the errors in the form", js "error"))
  /\ (defaultPrevented r = true
      <-> exists x, In x (fields f) /\ passes x = false)
  /\ (forall x,
        JsString.eqb (type x) (js "hidden") = true
        \/ JsString.eqb (name x) (js "_honey") = true ->
        passes x = true).
Proof.
  cbv zeta. unfold handleSubmit.
  rewrite FormFacts.validateAll_spec.
  assert (E : negb (forallb passes (fields f)) = true
              <-> exists x, In x (fields f) /\ passes x = false).
  { rewrite negb_true_iff. split.
    - intros H. induction (fields f) as [| x l IH]; [discriminate |].
      cbn [forallb] in H. destruct (passes x) eqn:P.
      + destruct (IH H) as (y & Hy & Py). exists y. split; [right |]; auto.
      + exists x. split; [left |]; auto.
    - intros (x & Hx & Px).
      destruct (forallb passes (fields f)) eqn:A; [| reflexivity].
      rewrite forallb_forall in A. rewrite (A x Hx) in Px. discriminate. }
  assert (Hh : forall x,
             JsString.eqb (type x) (js "hidden") = true
             \/ JsString.eqb (name x) (js "_honey") = true ->
             passes x = true).
  { intros x H. unfold passes, validateField.
    destruct H as [-> | ->]; [| rewrite orb_true_r]; reflexivity. }
  destruct (forallb passes (fields f)); cbn; repeat split; auto;
    try apply E; try (intros H; apply E in H; exact H).
Qed.

End FormExtras.

(* ===================================================================== *)
(** * Further properties of the helpers of js/utils.js *)
(* ===================================================================== *)

Module TextFacts.

Lemma trimStart_split (s : jsstring) :
  exists spaces,
    s = spaces ++ JsString.trimStart s
    /\ forallb JsString.is_space spaces = true.
Proof.
  induction s as [| c s (a & E & H)]; simpl.
  - exists []. auto.
  - destruct (JsString.is_space c) eqn:C.
    + exists (c :: a). simpl. rewrite C, H. split; [congruence | auto].
    + exists []. auto.
Qed.

Lemma trimStart_head (s : jsstring) (c : JsString.code_unit)
      (rest : jsstring) :
  JsString.trimStart s = c :: rest -> JsString.is_space c = false.
Proof.
  induction s as [| d s IH]; simpl; [discriminate |].
  destruct (JsString.is_space d) eqn:D; auto.
  intros E. injection E as -> _. exact D.
Qed.

(** [trim] takes whitespace off both ends and nothing else. *)
Lemma trim_split (s : jsstring) :
  exists front back,
    s = front ++ JsString.trim s ++ back
    /\ forallb JsString.is_space front = true
    /\ forallb JsString.is_space back = true.
Proof.
  unfold JsString.trim, JsString.trimEnd.
  destruct (trimStart_split s) as (a & Ea & Ha).
  destruct (trimStart_split (rev (JsString.trimStart s))) as (b & Eb & Hb).
  exists a, (rev b). repeat split; auto.
  - rewrite <- rev_app_distr, <- Eb, rev_involutive. exact Ea.
  - rewrite EmailFacts.forallb_rev_space. exact Hb.
Qed.

Lemma trim_last (s kept : jsstring) (c : JsString.code_unit) :
  JsString.trim s = kept ++ [c] -> JsString.is_space c = false.
Proof.
  unfold JsString.trim, JsString.trimEnd. intros E.
  apply (f_equal (@rev _)) in E.
  rewrite rev_involutive, rev_app_distr in E. simpl in E.
  apply trimStart_head in E. exact E.
Qed.

(** What [trim] keeps starts where [trimStart] stopped. *)
Lemma trim_first (s : jsstring) (c : JsString.code_unit)
      (rest : jsstring) :
  JsString.trim s = c :: rest -> JsString.is_space c = false.
Proof.
  unfold JsString.trim, JsString.trimEnd. intros E.
  destruct (trimStart_split (rev (JsString.trimStart s))) as (b & Eb & _).
  apply (f_equal (@rev _)) in Eb.
  rewrite rev_involutive, rev_app_distr, E in Eb.
  apply (trimStart_head s c (rest ++ rev b)). exact Eb.
Qed.

End TextFacts.

Section TextExtras.
Import Text.
Local Open Scope Z_scope.

(** X18. [truncate] returns a text unchanged when it is no longer than
    [length]. Otherwise it returns a piece of the first [length]
    characters, with the whitespace at both ends of that piece dropped,
    followed by the suffix: at most [length] characters plus the suffix,
    and never whitespace right before the suffix. *)
Theorem truncate_cuts_and_appends
        (text : jsstring) (length : Z) (suffix : jsstring) :
  length < Z.of_nat (List.length text) ->
  exists front kept back,
    truncate text length suffix = kept ++ suffix
    /\ firstn (Z.to_nat length) text = front ++ kept ++ back
    /\ forallb JsString.is_space front = true
    /\ forallb JsString.is_space back = true
    /\ (forall c rest, kept = c :: rest -> JsString.is_space c = false)
    /\ (forall rest c, kept = rest ++ [c] -> JsString.is_space c = false)
    /\ Z.of_nat (List.length (truncate text length suffix))
       <= Z.max 0 length + Z.of_nat (List.length suffix).
Proof.
  intros H. unfold truncate.
  destruct (Z.leb_spec (Z.of_nat (List.length text)) length); [lia |].
  unfold substring0.
  destruct (TextFacts.trim_split (firstn (Z.to_nat length) text))
    as (front & back & E & Hf & Hb).
  exists front, (JsString.trim (firstn (Z.to_nat length) text)), back.
  repeat split; auto.
  - intros c rest K. apply (TextFacts.trim_first _ _ _ K).
  - intros rest c K. apply (TextFacts.trim_last _ _ _ K).
  - rewrite length_app.
    assert (L : (List.length (JsString.trim (firstn (Z.to_nat length) text))
                 <= Z.to_nat length)%nat).
    { apply (f_equal (@List.length _)) in E.
      rewrite !length_app in E.
      pose proof (firstn_le_length (Z.to_nat length) text). lia. }
    lia.
Qed.

Lemma truncate_cuts_and_appends_witness :
  exists front kept back,
    truncate (js "Premium web development") 12 (js "...") = kept ++ js "..."
    /\ firstn (Z.to_nat 12) (js "Premium web development")
       = front ++ kept ++ back
    /\ forallb JsString.is_space front = true
    /\ forallb JsString.is_space back = true
    /\ (forall c rest, kept = c :: rest -> JsString.is_space c = false)
    /\ (forall rest c, kept = rest ++ [c] -> JsString.is_space c = false)
    /\ Z.of_nat
         (List.length (truncate (js "Premium web development") 12 (js "...")))
       <= Z.max 0 12 + Z.of_nat (List.length (js "...")).
Proof.
  apply (truncate_cuts_and_appends (js "Premium web development") 12
           (js "...")).
  simpl. lia.
Defined.

End TextExtras.
Module DebounceFacts.
Import Debounce.

Section Facts.
Variable Args : Type.

Lemma executedFunction_timers (args : Args) (s : t Args) :
  Single s ->
  timeout (executedFunction args s) = Some (nextId s)
  /\ timers (executedFunction args s) = [(nextId s, args)]
  /\ calls (executedFunction args s) = calls s.
Proof.
  intros [E | (id & a & Et & E)]; unfold executedFunction; cbn;
    rewrite E; repeat split.
  - destruct (timeout s); reflexivity.
  - rewrite Et. cbn. rewrite Nat.eqb_refl. reflexivity.
Qed.

Lemma executedFunction_Single (args : Args) (s : t Args) :
  Single s -> Single (executedFunction args s).
Proof.
  intros H. destruct (executedFunction_timers args s H) as (T & E & _).
  right. eauto.
Qed.

Lemma fire_Single (id : nat) (s : t Args) :
  Single s ->
  Single (fire id s)
  /\ (List.length (calls (fire id s))
      <= S (List.length (calls s)))%nat
  /\ (calls (fire id s) <> calls s -> timers (fire id s) = []).
Proof.
  intros [E | (i & a & Et & E)]; unfold fire; rewrite E; cbn.
  - repeat split; [left; exact E | lia | congruence].
  - destruct (Nat.eqb i id) eqn:I; cbn.
    + rewrite Et. cbn.
      repeat split; [left; reflexivity | rewrite length_app; simpl; lia].
    + repeat split; [right; eauto | lia | congruence].
Qed.

Lemma step_Single (s : t Args) (e : Event Args) :
  Single s -> Single (step s e).
Proof.
  destruct e; cbn [step]; intros H.
  - apply executedFunction_Single; auto.
  - apply fire_Single; auto.
Qed.

Lemma run_Single (events : list (Event Args)) :
  forall s, Single s -> Single (run events s).
Proof.
  unfold run. induction events as [| e events IH]; intros s H; simpl; auto.
  apply IH, step_Single, H.
Qed.

Lemma debounce_run_app (e1 e2 : list (Event Args)) (s : t Args) :
  run (e1 ++ e2) s = run e2 (run e1 s).
Proof. unfold run. apply fold_left_app. Qed.

(** A run of calls leaves one timer, holding the arguments of the last
    call, and calls nothing. *)
Lemma calls_in_a_row (burst : list Args) (final : Args) :
  forall s,
    Single s ->
    let s' := run (map Call (burst ++ [final])) s in
    exists id, timeout s' = Some id
               /\ timers s' = [(id, final)]
               /\ calls s' = calls s.
Proof.
  induction burst as [| a burst IH]; intros s H; cbv zeta.
  - cbn. destruct (executedFunction_timers final s H) as (T & E & C).
    eauto.
  - cbn [app map]. change (run (Call a :: ?l) s)
      with (run l (executedFunction a s)).
    destruct (IH (executedFunction a s) (executedFunction_Single a s H))
      as (id & T & E & C).
    exists id. repeat split; auto.
Qed.

End Facts.
End DebounceFacts.

Section DebounceExtras.
Import Debounce.

(** X19. Whatever the order of calls and timer firings, the closure of
    [debounce] has at most one timer alive, the one [timeout] names: each
    call cancels the timer of the call before. *)
Theorem debounce_keeps_one_timer
        (Args : Type) (events : list (Event Args)) :
  let s := run events create in
  timers s = []
  \/ exists id args, timeout s = Some id /\ timers s = [(id, args)].
Proof.
  apply (DebounceFacts.run_Single Args events create).
  left. reflexivity.
Qed.

(** X20. After any history, calls made in a row without a timer firing in
    between call [func] not at all; when the one timer left then fires,
    [func] is called once, with the arguments of the last call of the
    row; a firing of any other timer does nothing. *)
Theorem debounce_calls_once_with_last_arguments
        (Args : Type) (history : list (Event Args))
        (burst : list Args) (final : Args) :
  let before := run history create in
  let s := run (history ++ map Call (burst ++ [final])) create in
  calls s = calls before
  /\ exists id,
       timers s = [(id, final)]
       /\ calls (fire id s) = calls before ++ [final]
       /\ timers (fire id s) = []
       /\ forall other, other <> id -> fire other s = s.
Proof.
  cbv zeta. rewrite DebounceFacts.debounce_run_app.
  assert (H : Single (run history create)).
  { apply DebounceFacts.run_Single. left. reflexivity. }
  destruct (DebounceFacts.calls_in_a_row Args burst final _ H)
    as (id & T & E & C).
  split; [exact C |].
  exists id. unfold fire. rewrite E. cbn. rewrite Nat.eqb_refl. cbn.
  rewrite T, C. cbn.
  repeat split.
  intros other Ho. apply Nat.eqb_neq in Ho.
  rewrite Nat.eqb_sym in Ho. rewrite Ho. reflexivity.
Qed.

End DebounceExtras.

Module ThrottleFacts.
Import Throttle.

Section Facts.
Variable Args : Type.

Lemma throttle_run_app (e1 e2 : list (Event Args)) (s : t Args) :
  run (e1 ++ e2) s = run e2 (run e1 s).
Proof. unfold run. apply fold_left_app. Qed.

(** The flag is set exactly while one timeout is pending, and every call
    of [func] but possibly the last has had its timeout. *)
Lemma step_bound (s : t Args) (fired : nat) (e : Event Args) :
  resets s = (if inThrottle s then 1 else 0)%nat ->
  (List.length (calls s) <= fired + resets s)%nat ->
  resets (step s e) = (if inThrottle (step s e) then 1 else 0)%nat
  /\ (List.length (calls (step s e))
      <= fired + (if isTimeout e then 1 else 0) + resets (step s e))%nat.
Proof.
  destruct s as [b r c]. cbn [resets inThrottle calls].
  intros -> L.
  destruct e as [a |], b; cbn in *; rewrite ?length_app; cbn;
    split; auto; lia.
Qed.

Lemma run_bound (events : list (Event Args)) :
  forall s fired,
    resets s = (if inThrottle s then 1 else 0)%nat ->
    (List.length (calls s) <= fired + resets s)%nat ->
    resets (run events s) = (if inThrottle (run events s) then 1 else 0)%nat
    /\ (List.length (calls (run events s))
        <= fired + List.length (filter isTimeout events)
           + resets (run events s))%nat.
Proof.
  unfold run.
  induction events as [| e events IH]; intros s fired R L; cbn [fold_left].
  - cbn. split; [exact R | lia].
  - destruct (step_bound s fired e R L) as [R1 L1].
    destruct (IH (step s e) _ R1 L1) as [R2 L2].
    split; [exact R2 |].
    cbn [filter]. destruct (isTimeout e); cbn [List.length] in *; lia.
Qed.

(** While the flag is set, calls are dropped. *)
Lemma invokes_dropped (rest : list Args) (s : t Args) :
  inThrottle s = true -> run (map Invoke rest) s = s.
Proof.
  intros H. unfold run.
  induction rest as [| a rest IH]; cbn [map fold_left step]; auto.
  unfold invoke. rewrite H. cbn [negb]. exact IH.
Qed.

End Facts.
End ThrottleFacts.

Section ThrottleExtras.
Import Throttle.

(** X21. Whatever the order of calls and timeouts, the function returned
    by [throttle] has called [func] at most once more than timeouts have
    fired, and its flag is set exactly while one timeout is pending. *)
Theorem throttle_one_call_per_window
        (Args : Type) (events : list (Event Args)) :
  let s := run events create in
  (List.length (calls s)
   <= S (List.length (filter isTimeout events)))%nat
  /\ resets s = (if inThrottle s then 1 else 0)%nat.
Proof.
  cbv zeta.
  destruct (ThrottleFacts.run_bound Args events create 0 eq_refl
              (Nat.le_refl 0)) as [R L].
  split; [| exact R].
  rewrite R in L. destruct (inThrottle (run events create)); lia.
Qed.

(** X22. Of calls made in a row on a fresh throttled function only the
    first reaches [func]; the others are dropped, and the timeout that
    ends the window calls nothing: the last call of a burst is lost. *)
Theorem throttle_passes_first_drops_rest
        (Args : Type) (first : Args) (rest : list Args) :
  calls (run (Invoke first :: map Invoke rest) create) = [first]
  /\ calls (run (Invoke first :: map Invoke rest ++ [Timeout]) create)
     = [first].
Proof.
  split.
  - change (run (Invoke first :: map Invoke rest) create)
      with (run (map Invoke rest) (invoke first (@create Args))).
    rewrite ThrottleFacts.invokes_dropped; reflexivity.
  - change (run (Invoke first :: map Invoke rest ++ [Timeout]) create)
      with (run (map Invoke rest ++ [Timeout]) (invoke first (@create Args))).
    rewrite ThrottleFacts.throttle_run_app, ThrottleFacts.invokes_dropped;
      reflexivity.
Qed.

End ThrottleExtras.

Module ShuffleFacts.
Import Shuffle.

Section Facts.
Variable A : Type.

Lemma setNth_length (i : nat) (v : A) (arr : list A) :
  List.length (setNth i v arr) = List.length arr.
Proof.
  revert i. induction arr as [| a arr IH]; intros [| i]; simpl; auto.
Qed.

(** Writing [v] over [a] trades one for the other. *)
Lemma setNth_Permutation (arr : list A) :
  forall i a v,
    nth_error arr i = Some a ->
    Permutation (a :: setNth i v arr) (v :: arr).
Proof.
  induction arr as [| h arr IH]; intros [| i] a v H; simpl in *;
    try discriminate.
  - injection H as ->. apply perm_swap.
  - apply perm_trans with (h :: a :: setNth i v arr); [apply perm_swap |].
    apply perm_trans with (h :: v :: arr); [| apply perm_swap].
    apply perm_skip. apply IH. exact H.
Qed.

Lemma swap_Permutation (arr : list A) :
  forall i j, Permutation (swap i j arr) arr.
Proof.
  unfold swap.
  induction arr as [| h arr IH]; intros i j.
  - destruct i; reflexivity.
  - destruct i as [| i], j as [| j]; cbn [nth_error].
    + cbn. reflexivity.
    + destruct (nth_error arr j) as [aj |] eqn:J; [| reflexivity].
      cbn [setNth]. apply setNth_Permutation. exact J.
    + destruct (nth_error arr i) as [ai |] eqn:I; [| reflexivity].
      cbn [setNth]. apply setNth_Permutation. exact I.
    + specialize (IH i j).
      destruct (nth_error arr i) as [ai |]; [| reflexivity].
      destruct (nth_error arr j) as [aj |]; [| reflexivity].
      cbn [setNth]. apply perm_skip. exact IH.
Qed.

Lemma swap_length (i j : nat) (arr : list A) :
  List.length (swap i j arr) = List.length arr.
Proof.
  unfold swap.
  destruct (nth_error arr i); [| reflexivity].
  destruct (nth_error arr j); [| reflexivity].
  rewrite !setNth_length. reflexivity.
Qed.

Lemma setNth_same (arr : list A) :
  forall i v, (i < List.length arr)%nat ->
              nth_error (setNth i v arr) i = Some v.
Proof.
  induction arr as [| h arr IH]; intros [| i] v H; simpl in *;
    try lia; auto.
  apply IH. lia.
Qed.

Lemma setNth_other (arr : list A) :
  forall i k v, i <> k ->
                nth_error (setNth i v arr) k = nth_error arr k.
Proof.
  induction arr as [| h arr IH]; intros [| i] [| k] v H; simpl;
    try congruence; auto.
Qed.

(** After the swap of a round, [arr[i]] is what [arr[j]] was. *)
Lemma swap_nth (arr : list A) (i j : nat) :
  (i < List.length arr)%nat -> (j < List.length arr)%nat ->
  nth_error (swap i j arr) i = nth_error arr j.
Proof.
  intros Hi Hj. unfold swap.
  destruct (nth_error arr i) as [ai |] eqn:Ei;
    [| apply nth_error_None in Ei; lia].
  destruct (nth_error arr j) as [aj |] eqn:Ej;
    [| apply nth_error_None in Ej; lia].
  destruct (Nat.eq_dec j i) as [-> | N].
  - rewrite setNth_same by (rewrite setNth_length; exact Hi). congruence.
  - rewrite setNth_other by exact N. apply setNth_same. exact Hi.
Qed.

(** The swap of a round leaves the other places alone. *)
Lemma swap_other (arr : list A) (i j k : nat) :
  k <> i -> k <> j -> nth_error (swap i j arr) k = nth_error arr k.
Proof.
  intros Hi Hj. unfold swap.
  destruct (nth_error arr i); [| reflexivity].
  destruct (nth_error arr j); [| reflexivity].
  rewrite !setNth_other; auto.
Qed.

(** The rounds from [i] down never write above [i]. *)
Lemma loop_above (draw : nat -> nat) :
  (forall i, draw i <= i)%nat ->
  forall i (arr : list A) k,
    (i < k)%nat -> nth_error (loop draw i arr) k = nth_error arr k.
Proof.
  intros Hd. induction i as [| i IH]; intros arr k Hk; cbn [loop];
    [reflexivity |].
  rewrite IH by lia. apply swap_other.
  - lia.
  - specialize (Hd (S i)). lia.
Qed.

Lemma loop_Permutation (draw : nat -> nat) (i : nat) :
  forall arr : list A, Permutation (loop draw i arr) arr.
Proof.
  induction i as [| i IH]; intros arr; cbn [loop]; [reflexivity |].
  apply perm_trans with (swap (S i) (draw (S i)) arr);
    [apply IH | apply swap_Permutation].
Qed.

Lemma loop_length (draw : nat -> nat) (i : nat) :
  forall arr : list A, List.length (loop draw i arr) = List.length arr.
Proof.
  induction i as [| i IH]; intros arr; cbn [loop]; [reflexivity |].
  rewrite IH. apply swap_length.
Qed.

End Facts.
End ShuffleFacts.

Section ShuffleExtras.
Import Shuffle.

(** X23. With every draw on its range ([draw i] from [0] to [i]),
    [shuffle] returns the elements of the array it was given, each as many
    times as it was there, in some order; and the last place of the result
    holds what the first draw pointed at. *)
Theorem shuffle_is_a_permutation
        (A : Type) (draw : nat -> nat) (array : list A) :
  (forall i, draw i <= i)%nat ->
  Permutation (shuffle draw array) array
  /\ List.length (shuffle draw array) = List.length array
  /\ nth_error (shuffle draw array) (List.length array - 1)
     = nth_error array (draw (List.length array - 1)).
Proof.
  intros Hd. split; [apply ShuffleFacts.loop_Permutation |].
  split; [apply ShuffleFacts.loop_length |].
  unfold shuffle. destruct (List.length array - 1)%nat as [| n] eqn:E.
  - cbn [loop]. specialize (Hd 0%nat).
    replace (draw 0%nat) with 0%nat by lia. reflexivity.
  - cbn [loop]. rewrite ShuffleFacts.loop_above by (auto; lia).
    apply ShuffleFacts.swap_nth; [lia |].
    specialize (Hd (S n)). lia.
Qed.

Lemma shuffle_is_a_permutation_witness :
  Permutation (shuffle (fun i => i - 1)%nat [1; 2; 3; 4; 5]%nat)
    [1; 2; 3; 4; 5]%nat
  /\ List.length (shuffle (fun i => i - 1)%nat [1; 2; 3; 4; 5]%nat)
     = List.length [1; 2; 3; 4; 5]%nat
  /\ nth_error (shuffle (fun i => i - 1)%nat [1; 2; 3; 4; 5]%nat)
       (List.length [1; 2; 3; 4; 5]%nat - 1)
     = nth_error [1; 2; 3; 4; 5]%nat
         (List.length [1; 2; 3; 4; 5]%nat - 1 - 1).
Proof.
  apply (shuffle_is_a_permutation nat (fun i => i - 1)%nat
           [1; 2; 3; 4; 5]%nat).
  intros i. lia.
Defined.

End ShuffleExtras.

(* ===================================================================== *)
(** * Cookies *)
(* ===================================================================== *)

Module CookieFacts.
Import Cookies.

Lemma render_segments (jar : list (jsstring * jsstring)) :
  jar <> [] -> js "; " ++ render jar = segments jar.
Proof.
  induction jar as [| [k v] rest IH]; [contradiction |]. intros _.
  cbn [render segments]. destruct rest as [| kv rest].
  - cbn [segments]. rewrite app_nil_r. reflexivity.
  - rewrite <- IH by discriminate. rewrite <- ?app_assoc. reflexivity.
Qed.

Lemma isPrefix_app (a p s : jsstring) :
  isPrefix (a ++ p) (a ++ s) = isPrefix p s.
Proof.
  induction a as [| c a IH]; simpl; auto. rewrite N.eqb_refl. exact IH.
Qed.

Lemma isPrefix_self (p s : jsstring) : isPrefix p (p ++ s) = true.
Proof.
  rewrite <- (app_nil_r p) at 1. rewrite isPrefix_app. reflexivity.
Qed.

(** Two names without an equals sign, each followed by one, do not start
    alike unless they are the same name. *)
Lemma isPrefix_names (k k' tail : jsstring) :
  plainName k = true -> plainName k' = true -> k <> k' ->
  isPrefix (k ++ js "=") (k' ++ js "=" ++ tail) = false.
Proof.
  unfold plainName.
  revert k'. induction k as [| c k IH]; intros [| c' k'] Hk Hk' N;
    cbn [forallb] in Hk, Hk';
    change (js "=") with [JsString.of_ascii "="]; cbn [app isPrefix].
  - contradiction.
  - apply andb_true_iff in Hk' as [Hc _].
    apply andb_true_iff in Hc as [_ Hc].
    apply negb_true_iff in Hc. rewrite N.eqb_sym, Hc. reflexivity.
  - apply andb_true_iff in Hk as [Hc _].
    apply andb_true_iff in Hc as [_ Hc].
    apply negb_true_iff in Hc. rewrite Hc. reflexivity.
  - destruct (N.eqb_spec c c') as [-> | _]; [| reflexivity].
    cbn [andb].
    apply andb_true_iff in Hk as [_ Hk].
    apply andb_true_iff in Hk' as [_ Hk'].
    apply (IH k'); auto. congruence.
Qed.

(** Reading on through characters that cannot start the separator. *)
Lemma splitFrom_clean (sep x : jsstring) :
  forall rest piece,
    clean x = true ->
    splitFrom (JsString.of_ascii ";" :: sep) (x ++ rest) 0 piece
    = splitFrom (JsString.of_ascii ";" :: sep) rest 0 (piece ++ x).
Proof.
  induction x as [| c x IH]; intros rest piece H.
  - rewrite app_nil_r. reflexivity.
  - unfold clean in H. cbn [forallb] in H. fold (clean x) in H.
    apply andb_true_iff in H as [Hc Hx].
    apply negb_true_iff in Hc.
    cbn [app splitFrom isPrefix]. rewrite N.eqb_sym, Hc. cbn [andb].
    rewrite IH by exact Hx. rewrite <- app_assoc. reflexivity.
Qed.

(** Passing over the rest of a separator just found. *)
Lemma splitFrom_skip (sep x : jsstring) :
  forall rest k piece,
    splitFrom sep (x ++ rest) (List.length x + k) piece
    = splitFrom sep rest k piece.
Proof.
  induction x as [| c x IH]; intros rest k piece; [reflexivity |].
  cbn [app List.length Nat.add splitFrom]. apply IH.
Qed.

Lemma plainName_clean (k : jsstring) : plainName k = true -> clean k = true.
Proof.
  unfold plainName, clean. induction k as [| c k IH]; simpl; auto.
  intros H. apply andb_true_iff in H as [Hc Hk].
  apply andb_true_iff in Hc as [-> _]. auto.
Qed.

Lemma clean_app (a b : jsstring) :
  clean (a ++ b) = clean a && clean b.
Proof. apply forallb_app. Qed.

Lemma splitFrom_on (sep rest piece : jsstring) (c : JsString.code_unit) :
  isPrefix sep (c :: rest) = false ->
  splitFrom sep (c :: rest) 0 piece = splitFrom sep rest 0 (piece ++ [c]).
Proof. intros H. cbn [splitFrom]. rewrite H. reflexivity. Qed.

Lemma splitFrom_cut (sep rest piece : jsstring) (c : JsString.code_unit) :
  isPrefix sep (c :: rest) = true ->
  splitFrom sep (c :: rest) 0 piece
  = piece :: splitFrom sep rest (List.length sep - 1) [].
Proof. intros H. cbn [splitFrom]. rewrite H. reflexivity. Qed.

Lemma isPrefix_cons (c : JsString.code_unit) (p s : jsstring) :
  isPrefix (c :: p) (c :: s) = isPrefix p s.
Proof. cbn [isPrefix]. rewrite N.eqb_refl. reflexivity. Qed.

(** The pair of another name is read through. *)
Lemma splitFrom_other (k k' v' rest piece : jsstring) :
  plainName k = true -> plainName k' = true -> clean v' = true ->
  k <> k' ->
  splitFrom (js "; " ++ k ++ js "=")
    (js "; " ++ k' ++ js "=" ++ v' ++ rest) 0 piece
  = splitFrom (js "; " ++ k ++ js "=") rest 0
      (piece ++ js "; " ++ k' ++ js "=" ++ v').
Proof.
  intros Hk Hk' Hv N.
  change (js "; " ++ k ++ js "=")
    with (JsString.of_ascii ";" :: JsString.of_ascii " " :: k ++ js "=").
  change (js "; " ++ k' ++ js "=" ++ v' ++ rest)
    with (JsString.of_ascii ";"
            :: JsString.of_ascii " " :: k' ++ js "=" ++ v' ++ rest).
  rewrite splitFrom_on
    by (rewrite !isPrefix_cons; apply isPrefix_names; auto).
  replace (JsString.of_ascii " " :: k' ++ js "=" ++ v' ++ rest)
    with ((JsString.of_ascii " " :: k' ++ js "=" ++ v') ++ rest)
    by (cbn [app]; rewrite <- !app_assoc; reflexivity).
  rewrite splitFrom_clean.
  - rewrite <- app_assoc. reflexivity.
  - change (JsString.of_ascii " " :: k' ++ js "=" ++ v')
      with ([JsString.of_ascii " "] ++ k' ++ js "=" ++ v').
    rewrite !clean_app, (plainName_clean k' Hk'), Hv. reflexivity.
Qed.

(** The pair of the name looked for ends the piece and starts the next
    with its value. *)
Lemma splitFrom_found (k v rest piece : jsstring) :
  clean v = true ->
  splitFrom (js "; " ++ k ++ js "=")
    (js "; " ++ k ++ js "=" ++ v ++ rest) 0 piece
  = piece :: splitFrom (js "; " ++ k ++ js "=") rest 0 v.
Proof.
  intros Hv.
  replace (js "; " ++ k ++ js "=" ++ v ++ rest)
    with ((js "; " ++ k ++ js "=") ++ v ++ rest)
    by (rewrite <- !app_assoc; reflexivity).
  pose proof (isPrefix_self (js "; " ++ k ++ js "=") (v ++ rest)) as P.
  change (js "; " ++ k ++ js "=")
    with (JsString.of_ascii ";" :: (JsString.of_ascii " " :: k ++ js "="))
    in *.
  set (tail := JsString.of_ascii " " :: k ++ js "=") in *.
  change ((JsString.of_ascii ";" :: tail) ++ v ++ rest)
    with (JsString.of_ascii ";" :: (tail ++ v ++ rest)) in *.
  rewrite (splitFrom_cut _ _ _ _ P).
  f_equal. cbn [List.length]. rewrite Nat.sub_succ, Nat.sub_0_r.
  rewrite <- (Nat.add_0_r (List.length tail)).
  rewrite splitFrom_skip, splitFrom_clean by exact Hv.
  reflexivity.
Qed.

(** A jar without the name is read through in one piece. *)
Lemma splitFrom_absent (k : jsstring) (jar : list (jsstring * jsstring)) :
  plainName k = true -> Tidy jar -> ~ In k (map fst jar) ->
  forall piece,
    splitFrom (js "; " ++ k ++ js "=") (segments jar) 0 piece
    = [piece ++ segments jar].
Proof.
  intros Hk Ht. induction Ht as [| [k' v'] jar [Hk' Hv'] _ IH];
    intros Hn piece.
  - cbn. rewrite app_nil_r. reflexivity.
  - cbn [segments map fst In] in *.
    rewrite splitFrom_other; auto.
    rewrite IH by tauto. rewrite <- !app_assoc. reflexivity.
Qed.

(** The pieces [getCookie] gets for a jar that holds the name once. *)
Lemma split_present (k v : jsstring)
      (before after : list (jsstring * jsstring)) :
  Tidy (before ++ (k, v) :: after) ->
  ~ In k (map fst before) -> ~ In k (map fst after) ->
  split (js "; " ++ k ++ js "=") (segments (before ++ (k, v) :: after))
  = [segments before; v ++ segments after].
Proof.
  intros Ht Hb Ha. unfold split.
  assert (Hk : plainName k = true /\ clean v = true).
  { apply Forall_app in Ht as [_ Ht]. inversion Ht; subst. assumption. }
  destruct Hk as [Hk Hv].
  assert (Tb : Tidy before) by (apply Forall_app in Ht; tauto).
  assert (Ta : Tidy after).
  { apply Forall_app in Ht as [_ Ht]. inversion Ht; subst. assumption. }
  clear Ht.
  assert (G : forall piece,
             splitFrom (js "; " ++ k ++ js "=")
               (segments (before ++ (k, v) :: after)) 0 piece
             = [piece ++ segments before; v ++ segments after]).
  { induction Tb as [| [k' v'] before [Hk' Hv'] _ IH]; intros piece.
    - cbn [app segments]. rewrite splitFrom_found by exact Hv.
      rewrite splitFrom_absent by auto. rewrite app_nil_r. reflexivity.
    - cbn [app segments map fst In] in *.
      rewrite splitFrom_other; auto.
      rewrite IH by tauto. rewrite <- !app_assoc. reflexivity. }
  apply (G []).
Qed.

(** Up to the first semicolon. *)
Lemma split_semicolon_head (v : jsstring)
      (jar : list (jsstring * jsstring)) :
  clean v = true ->
  hd [] (split (js ";") (v ++ segments jar)) = v.
Proof.
  intros Hv. unfold split.
  change (js ";") with (JsString.of_ascii ";" :: []).
  rewrite splitFrom_clean by exact Hv.
  destruct jar as [| [k' v'] jar]; reflexivity.
Qed.

End CookieFacts.

Section CookieExtras.
Import Cookies.

(** X24. From the cookie string of a jar in which names hold neither [;]
    nor [=], values hold no [;] and no name comes twice, [getCookie]
    returns the value stored under a name that is in the jar. *)
Theorem getCookie_finds_value
        (jar : list (jsstring * jsstring)) (name value : jsstring) :
  Tidy jar ->
  NoDup (map fst jar) ->
  In (name, value) jar ->
  getCookie name (render jar) = Some value.
Proof.
  intros Ht Hd Hi.
  apply in_split in Hi as (before & after & ->).
  rewrite map_app in Hd. cbn [map fst] in Hd.
  pose proof (NoDup_remove_2 _ _ _ Hd) as Hn.
  rewrite in_app_iff in Hn.
  unfold getCookie. cbv zeta.
  rewrite CookieFacts.render_segments
    by (destruct before; discriminate).
  rewrite CookieFacts.split_present by tauto.
  cbn [List.length Nat.eqb last].
  rewrite CookieFacts.split_semicolon_head; [reflexivity |].
  apply Forall_app in Ht as [_ Ht]. inversion Ht; subst. tauto.
Qed.

Lemma getCookie_finds_value_witness :
  getCookie (js "cookie_consent")
    (render [(js "theme", js "dark"); (js "cookie_consent", js "accepted");
             (js "lang", js "en")])
  = Some (js "accepted").
Proof.
  apply (getCookie_finds_value
           [(js "theme", js "dark"); (js "cookie_consent", js "accepted");
            (js "lang", js "en")]
           (js "cookie_consent") (js "accepted")).
  - repeat constructor.
  - repeat constructor; simpl; intuition discriminate.
  - simpl. auto.
Defined.



End CookieExtras.

(* ===================================================================== *)
(** * Storage and the theme *)
(* ===================================================================== *)

Section StorageExtras.
Import Utils.

(** X26. Where the browser stores the text it is given and hands it back,
    and the value survives [JSON.stringify] and [JSON.parse],
    [setStorage] followed by [getStorage] under the same key returns the
    value, and nothing is written on the console. *)
Theorem storage_round_trip
        (Browser Error Value : Type) (null : Value)
        (getItem : jsstring -> Browser ->
                   (Error + option jsstring) * Browser)
        (setItem : jsstring -> jsstring -> Browser ->
                   (Error + unit) * Browser)
        (JSON_parse : jsstring -> Error + Value)
        (JSON_stringify : Value -> Error + jsstring)
        (key text : jsstring) (value : Value) (w : World Browser Error)
        (b1 b2 : Browser) :
  JSON_stringify value = inr text ->
  setItem key text (browser w) = (inr tt, b1) ->
  getItem key b1 = (inr (Some text), b2) ->
  JsString.truthy text = true ->
  JSON_parse text = inr value ->
  run (setStorage setItem JSON_stringify key value ;;
       getStorage null getItem JSON_parse key) w
  = (inr value, mkWorld b2 (console w)).
Proof.
  intros Hs Hset Hget Ht Hp.
  pose proof (StorageFacts.setStorage_stored Browser Error Value setItem
                JSON_stringify key text value w b1 Hs Hset) as E1.
  pose proof (StorageFacts.getStorage_found Browser Error Value null
                getItem JSON_parse key text (mkWorld b1 (console w))
                value b2 Hget Ht Hp) as E2.
  unfold run in *. cbn [bind Monad_eitherT unEitherT Monad_state runState].
  rewrite E1. cbn [bind Monad_state runState]. exact E2.
Qed.

Lemma storage_round_trip_witness :
  run (setStorage Theme.Working.setItem Theme.Working.JSON_stringify
         (js "theme") (js "dark") ;;
       getStorage Theme.Working.null Theme.Working.getItem
         Theme.Working.JSON_parse (js "theme")) Theme.Working.world
  = (inr (js "dark"),
     mkWorld [(js "theme", [34%N] ++ js "dark" ++ [34%N])] []).
Proof.
  apply (storage_round_trip Theme.Working.Browser Theme.Working.Error
           Theme.Working.Value Theme.Working.null Theme.Working.getItem
           Theme.Working.setItem Theme.Working.JSON_parse
           Theme.Working.JSON_stringify (js "theme")
           ([34%N] ++ js "dark" ++ [34%N]) (js "dark")
           Theme.Working.world
           [(js "theme", [34%N] ++ js "dark" ++ [34%N])]
           [(js "theme", [34%N] ++ js "dark" ++ [34%N])]);
    reflexivity.
Defined.

(** X27. What [getStorage] reads when there is nothing good to read. A
    key that is not there, or one that holds the empty text, reads as
    [null] and leaves the console alone; a text that [JSON.parse] rejects
    reads as [null] too, with one line on the console. *)
Theorem getStorage_reads_null
        (Browser Error Value : Type) (null : Value)
        (getItem : jsstring -> Browser ->
                   (Error + option jsstring) * Browser)
        (JSON_parse : jsstring -> Error + Value)
        (key : jsstring) (w : World Browser Error) (b : Browser) :
  (getItem key (browser w) = (inr None, b) ->
   run (getStorage null getItem JSON_parse key) w
   = (inr null, mkWorld b (console w)))
  /\ (getItem key (browser w) = (inr (Some []), b) ->
      run (getStorage null getItem JSON_parse key) w
      = (inr null, mkWorld b (console w)))
  /\ (forall text e,
        getItem key (browser w) = (inr (Some text), b) ->
        JsString.truthy text = true ->
        JSON_parse text = inl e ->
        run (getStorage null getItem JSON_parse key) w
        = (inr null,
           mkWorld b (console w ++ [(js "Error getting storage:", e)]))).
Proof.
  repeat split.
  - intros H. unfold run, getStorage. cbn. rewrite H. reflexivity.
  - intros H. unfold run, getStorage. cbn. rewrite H. reflexivity.
  - intros text e. apply StorageFacts.getStorage_parse_throws.
Qed.

End StorageExtras.

Module ThemeFacts.
Import Utils Theme.

Section Facts.
Variables Browser Error Value : Type.
Variable setItem :
  jsstring -> jsstring -> Browser -> (Error + unit) * Browser.
Variable JSON_stringify : Value -> Error + jsstring.
Variable ofString : jsstring -> Value.
Variable typeError : Error.

(** With the button and both icons there, [setTheme] returns, whatever the
    storage does. *)
Lemma setTheme_returns (theme : jsstring) (p : Page) (t : Toggle)
      (w : World Browser Error) (d1 d2 : Display) :
  themeToggle p = Some t ->
  sunIcon t = Some d1 -> moonIcon t = Some d2 ->
  exists w',
    setTheme setItem JSON_stringify ofString typeError theme p w
    = (inr tt,
       (mkPage (Some theme)
          (Some (if JsString.eqb theme (js "dark")
                 then mkToggle (Some DisplayBlock) (Some DisplayNone)
                 else mkToggle (Some DisplayNone) (Some DisplayBlock))),
        w')).
Proof.
  intros Ht Hs Hm. unfold setTheme. cbv zeta.
  destruct (StorageFacts.setStorage_returns Browser Error Value setItem
              JSON_stringify (js "theme") (ofString theme) w) as (w' & E).
  rewrite E. cbn [themeToggle]. rewrite Ht.
  exists w'. unfold showIcons. rewrite Hs, Hm.
  destruct (JsString.eqb theme (js "dark")); reflexivity.
Qed.

Lemma toggle_once (p : Page) (t : Toggle) (w : World Browser Error)
      (d1 d2 : Display) :
  themeToggle p = Some t ->
  sunIcon t = Some d1 -> moonIcon t = Some d2 ->
  exists p1 w1 t1 e1 e2,
    toggleTheme setItem JSON_stringify ofString typeError p w
    = (inr tt, (p1, w1))
    /\ themeToggle p1 = Some t1
    /\ sunIcon t1 = Some e1 /\ moonIcon t1 = Some e2
    /\ dataTheme p1
       = Some (if match dataTheme p with
                  | Some current => JsString.eqb current (js "dark")
                  | None => false
                  end
               then js "light" else js "dark").
Proof.
  intros Ht Hs Hm. unfold toggleTheme. cbv zeta.
  match goal with |- context [setTheme _ _ _ _ ?th _ _] =>
    destruct (setTheme_returns th p t w d1 d2 Ht Hs Hm) as (w' & E)
  end.
  rewrite E.
  destruct (match dataTheme p with
            | Some current => JsString.eqb current (js "dark")
            | None => false
            end);
    do 5 eexists; repeat split; reflexivity.
Qed.

(** Without the button [setTheme] throws, after the attribute and the
    storage. *)
Lemma setTheme_no_button (theme : jsstring) (p : Page)
      (w : World Browser Error) :
  themeToggle p = None ->
  exists w',
    run (setStorage setItem JSON_stringify (js "theme") (ofString theme)) w
    = (inr tt, w')
    /\ setTheme setItem JSON_stringify ofString typeError theme p w
       = (inl typeError, (mkPage (Some theme) None, w')).
Proof.
  intros Ht. unfold setTheme. cbv zeta.
  destruct (StorageFacts.setStorage_returns Browser Error Value setItem
              JSON_stringify (js "theme") (ofString theme) w) as (w' & E).
  exists w'. rewrite E. cbn [themeToggle]. rewrite Ht. auto.
Qed.

End Facts.
End ThemeFacts.

Section ThemeExtras.
Import Utils Theme.

(** X28. On a page whose toggle button has both icons, [toggleTheme]
    returns normally whatever the storage does, also when it is blocked or
    full: [data-theme] becomes [light] if it was [dark] and [dark]
    otherwise, and the icon of the new theme is the one shown. *)
Theorem toggleTheme_switches_whatever_storage_does
        (Browser Error Value : Type)
        (setItem : jsstring -> jsstring -> Browser ->
                   (Error + unit) * Browser)
        (JSON_stringify : Value -> Error + jsstring)
        (ofString : jsstring -> Value) (typeError : Error)
        (p : Page) (t : Toggle) (w : World Browser Error)
        (d1 d2 : Display) :
  themeToggle p = Some t ->
  sunIcon t = Some d1 -> moonIcon t = Some d2 ->
  exists w',
    toggleTheme setItem JSON_stringify ofString typeError p w
    = (inr tt,
       (if match dataTheme p with
           | Some current => JsString.eqb current (js "dark")
           | None => false
           end
        then mkPage (Some (js "light"))
               (Some (mkToggle (Some DisplayNone) (Some DisplayBlock)))
        else mkPage (Some (js "dark"))
               (Some (mkToggle (Some DisplayBlock) (Some DisplayNone))),
        w')).
Proof.
  intros Ht Hs Hm. unfold toggleTheme. cbv zeta.
  match goal with |- context [setTheme _ _ _ _ ?th _ _] =>
    destruct (ThemeFacts.setTheme_returns Browser Error Value setItem
                JSON_stringify ofString typeError th p t w d1 d2
                Ht Hs Hm) as (w' & E)
  end.
  exists w'. rewrite E.
  destruct (match dataTheme p with
            | Some current => JsString.eqb current (js "dark")
            | None => false
            end); reflexivity.
Qed.

Lemma toggleTheme_switches_whatever_storage_does_witness :
  exists w',
    toggleTheme Blocked.setItem Blocked.JSON_stringify (fun s => s)
      "TypeError"%string (mkPage (Some (js "dark")) (Some fullToggle))
      Blocked.world
    = (inr tt,
       (if match dataTheme (mkPage (Some (js "dark")) (Some fullToggle)) with
           | Some current => JsString.eqb current (js "dark")
           | None => false
           end
        then mkPage (Some (js "light"))
               (Some (mkToggle (Some DisplayNone) (Some DisplayBlock)))
        else mkPage (Some (js "dark"))
               (Some (mkToggle (Some DisplayBlock) (Some DisplayNone))),
        w')).
Proof.
  apply (toggleTheme_switches_whatever_storage_does Blocked.Browser
           Blocked.Error Blocked.Value Blocked.setItem
           Blocked.JSON_stringify (fun s => s) "TypeError"%string
           (mkPage (Some (js "dark")) (Some fullToggle)) fullToggle
           Blocked.world DisplayUnset DisplayUnset);
    reflexivity.
Defined.

(** X29. On such a page, toggling twice brings [data-theme] back to what
    it was if that was [dark] or [light], having passed through the other
    one; from anything else, two toggles end on [light]. *)
Theorem toggleTheme_twice
        (Browser Error Value : Type)
        (setItem : jsstring -> jsstring -> Browser ->
                   (Error + unit) * Browser)
        (JSON_stringify : Value -> Error + jsstring)
        (ofString : jsstring -> Value) (typeError : Error)
        (p : Page) (t : Toggle) (w : World Browser Error)
        (d1 d2 : Display) :
  themeToggle p = Some t ->
  sunIcon t = Some d1 -> moonIcon t = Some d2 ->
  exists p1 w1 p2 w2,
    toggleTheme setItem JSON_stringify ofString typeError p w
    = (inr tt, (p1, w1))
    /\ toggleTheme setItem JSON_stringify ofString typeError p1 w1
       = (inr tt, (p2, w2))
    /\ dataTheme p1
       = Some (if match dataTheme p with
                  | Some current => JsString.eqb current (js "dark")
                  | None => false
                  end
               then js "light" else js "dark")
    /\ dataTheme p2
       = Some (if match dataTheme p with
                  | Some current => JsString.eqb current (js "dark")
                  | None => false
                  end
               then js "dark" else js "light").
Proof.
  intros Ht Hs Hm.
  destruct (ThemeFacts.toggle_once Browser Error Value setItem JSON_stringify
              ofString typeError p t w d1 d2 Ht Hs Hm)
    as (p1 & w1 & t1 & e1 & e2 & E1 & T1 & S1 & M1 & D1).
  destruct (ThemeFacts.toggle_once Browser Error Value setItem JSON_stringify
              ofString typeError p1 t1 w1 e1 e2 T1 S1 M1)
    as (p2 & w2 & t2 & f1 & f2 & E2 & T2 & S2 & M2 & D2).
  exists p1, w1, p2, w2. repeat split; auto.
  rewrite D2, D1.
  destruct (match dataTheme p with
            | Some current => JsString.eqb current (js "dark")
            | None => false
            end); reflexivity.
Qed.

Lemma toggleTheme_twice_witness :
  exists p1 w1 p2 w2,
    toggleTheme Working.setItem Working.JSON_stringify (fun s => s)
      "TypeError"%string (mkPage (Some (js "light")) (Some fullToggle))
      Working.world
    = (inr tt, (p1, w1))
    /\ toggleTheme Working.setItem Working.JSON_stringify (fun s => s)
         "TypeError"%string p1 w1
       = (inr tt, (p2, w2))
    /\ dataTheme p1
       = Some (if match dataTheme
                          (mkPage (Some (js "light")) (Some fullToggle)) with
                  | Some current => JsString.eqb current (js "dark")
                  | None => false
                  end
               then js "light" else js "dark")
    /\ dataTheme p2
       = Some (if match dataTheme
                          (mkPage (Some (js "light")) (Some fullToggle)) with
                  | Some current => JsString.eqb current (js "dark")
                  | None => false
                  end
               then js "dark" else js "light").
Proof.
  apply (toggleTheme_twice Working.Browser Working.Error Working.Value
           Working.setItem Working.JSON_stringify (fun s => s)
           "TypeError"%string
           (mkPage (Some (js "light")) (Some fullToggle)) fullToggle
           Working.world DisplayUnset DisplayUnset);
    reflexivity.
Defined.

(** X30. On a page without the toggle button, [setTheme] throws a
    [TypeError], but only after it has set [data-theme] and handed the
    preference to [setStorage], which returned. *)
Theorem setTheme_without_button_throws
        (Browser Error Value : Type)
        (setItem : jsstring -> jsstring -> Browser ->
                   (Error + unit) * Browser)
        (JSON_stringify : Value -> Error + jsstring)
        (ofString : jsstring -> Value) (typeError : Error)
        (theme : jsstring) (p : Page) (w : World Browser Error) :
  themeToggle p = None ->
  exists w',
    run (setStorage setItem JSON_stringify (js "theme") (ofString theme)) w
    = (inr tt, w')
    /\ setTheme setItem JSON_stringify ofString typeError theme p w
       = (inl typeError, (mkPage (Some theme) None, w')).
Proof. apply ThemeFacts.setTheme_no_button. Qed.

Lemma setTheme_without_button_throws_witness :
  exists w',
    run (setStorage Working.setItem Working.JSON_stringify (js "theme")
           (js "dark")) Working.world
    = (inr tt, w')
    /\ setTheme Working.setItem Working.JSON_stringify (fun s => s)
         "TypeError"%string (js "dark") (mkPage None None) Working.world
       = (inl "TypeError"%string, (mkPage (Some (js "dark")) None, w')).
Proof.
  apply (setTheme_without_button_throws Working.Browser Working.Error
           Working.Value Working.setItem Working.JSON_stringify
           (fun s => s) "TypeError"%string (js "dark") (mkPage None None)
           Working.world).
  reflexivity.
Defined.

End ThemeExtras.
